(** * Order overview dashboard: filtering, sorting, paging and presets

    A shallow embedding of the logic of the dashboard
    ([src/app/page.tsx], [components/OrderTable.tsx],
    [components/PresetManager.tsx], [types/orders.ts], [types/filters.ts])
    and the properties proved about it.

    Conventions of the embedding.
    - A JavaScript string is a [string]: its characters are UTF-16 code
      units, here the ones in the range 0..255.
    - A JavaScript number that holds an integer (an oid, a number of days,
      an array index, a page number) is a [Z].  The front end computes with
      double-precision numbers, which hold every integer strictly between
      -2^53 and 2^53 exactly.  [parseInt] is modelled by the integer its
      digits denote, whatever its size; the engine hands back that integer
      rounded to a double.  A comparison of a number of days strictly
      between -2^53 and 2^53 with such a threshold has the same answer on
      the integer and on its rounding (lemma [below_rounded]); the
      characterisation of the filter, which reads a threshold off an
      arbitrary label, carries this bound.
    - React state is an explicit record; an event handler is a function from
      the state it was rendered with to the state after its updates.
    - [localStorage] is an explicit store inside that record.
    - [JSON.stringify] and [JSON.parse] are a printer and a parser of JSON
      text; the values the front end casts to [Preset[]] or [FilterState]
      are read at these types, a value of another shape is outside the
      model.
    - An effect that may throw ends in an [outcome]. *)

From Stdlib Require Import ZArith List String Ascii Bool Lia.
From Stdlib Require Import Sorting.Sorted Sorting.Permutation.
Import ListNotations.

Set Warnings "-register-all".

Local Open Scope string_scope.
Local Open Scope list_scope.
Local Open Scope Z_scope.

(* ================================================================= *)
(** ** Strings of the host language *)

(** The white space and line terminator code units that [trim] and
    [parseInt] skip: TAB, LF, VT, FF, CR, SP and NBSP (the others lie
    above 255). *)
Definition is_js_space (c : ascii) : bool :=
  let n := nat_of_ascii c in
  ((9 <=? n)%nat && (n <=? 13)%nat) || (n =? 32)%nat || (n =? 160)%nat.

Definition is_digit (c : ascii) : bool :=
  let n := nat_of_ascii c in (48 <=? n)%nat && (n <=? 57)%nat.

Definition digit_value (c : ascii) : Z := Z.of_nat (nat_of_ascii c) - 48.

(** [String.prototype.trimStart]. *)
Fixpoint trimStart (s : string) : string :=
  match s with
  | String c r => if is_js_space c then trimStart r else s
  | EmptyString => EmptyString
  end.

(** Reversal, used for [trimEnd]. *)
Fixpoint rev_append_string (s acc : string) : string :=
  match s with
  | EmptyString => acc
  | String c r => rev_append_string r (String c acc)
  end.

Definition rev_string (s : string) : string := rev_append_string s EmptyString.

Definition trimEnd (s : string) : string := rev_string (trimStart (rev_string s)).

(** [String.prototype.trim]. *)
Definition trim (s : string) : string := trimEnd (trimStart s).

(** The value of the longest prefix of decimal digits, most significant
    digit first. *)
Fixpoint parse_digits (acc : Z) (s : string) : Z :=
  match s with
  | String c r => if is_digit c then parse_digits (acc * 10 + digit_value c) r else acc
  | EmptyString => acc
  end.

(** [parseInt(s, 10)]: leading white space is skipped, one sign is read,
    then the longest run of decimal digits; what follows the digits is
    ignored.  [None] stands for [NaN] (no digit where one is expected).
    The result is the integer the digits denote; the engine returns the
    double nearest to it, the same number below 2^53. *)
Definition parseInt (s : string) : option Z :=
  let body := trimStart s in
  let '(sign, digits) :=
    match body with
    | String c r =>
        if Ascii.eqb c "-" then (-1, r)
        else if Ascii.eqb c "+" then (1, r)
        else (1, body)
    | EmptyString => (1, body)
    end in
  match digits with
  | String c _ => if is_digit c then Some (sign * parse_digits 0 digits) else None
  | EmptyString => None
  end.

(** [s.replace(c, "")] for a one-character search string [c]: the first
    occurrence of [c] is deleted, wherever it stands; later ones stay. *)
Fixpoint replace_first (c : ascii) (s : string) : string :=
  match s with
  | EmptyString => EmptyString
  | String d r => if Ascii.eqb d c then r else String d (replace_first c r)
  end.

(** Lexicographic order on code units: [a < b] on two strings. *)
Fixpoint string_ltb (a b : string) : bool :=
  match a, b with
  | _, EmptyString => false
  | EmptyString, String _ _ => true
  | String x a', String y b' =>
      if (nat_of_ascii x <? nat_of_ascii y)%nat then true
      else if (nat_of_ascii y <? nat_of_ascii x)%nat then false
      else string_ltb a' b'
  end.

(* ================================================================= *)
(** ** Data model ([types/orders.ts], [types/filters.ts]) *)

Record Order := mkOrder {
  oid : Z;
  statusLeft : string;
  statusRight : string;
  type : string;
  lock : string;
  customer : string;
  daysSinceOrder : Z;
  model : string;
  designer : string
}.

(** What a property read [order[key]] can yield. *)
Inductive JsVal :=
| VUndefined
| VNumber (z : Z)
| VString (s : string).

(** [order[key]] for an arbitrary key: an order has exactly nine own
    properties, any other key reads [undefined]. *)
Definition order_get (o : Order) (key : string) : JsVal :=
  if String.eqb key "oid" then VNumber (oid o)
  else if String.eqb key "statusLeft" then VString (statusLeft o)
  else if String.eqb key "statusRight" then VString (statusRight o)
  else if String.eqb key "type" then VString (type o)
  else if String.eqb key "lock" then VString (lock o)
  else if String.eqb key "customer" then VString (customer o)
  else if String.eqb key "daysSinceOrder" then VNumber (daysSinceOrder o)
  else if String.eqb key "model" then VString (model o)
  else if String.eqb key "designer" then VString (designer o)
  else VUndefined.

(** [keyof FilterState]. *)
Inductive FilterKey :=
| K_OID | K_status | K_type | K_lock | K_customer | K_model | K_designer | K_days.

Definition key_name (k : FilterKey) : string :=
  match k with
  | K_OID => "OID"
  | K_status => "status"
  | K_type => "type"
  | K_lock => "lock"
  | K_customer => "customer"
  | K_model => "model"
  | K_designer => "designer"
  | K_days => "days"
  end.

(** [interface FilterState]: seven selections and the optional [OID]. *)
Record FilterState := mkFilterState {
  f_OID : option (list string);
  f_status : list string;
  f_type : list string;
  f_lock : list string;
  f_customer : list string;
  f_model : list string;
  f_designer : list string;
  f_days : list string
}.

Definition defaultFilterState : FilterState :=
  mkFilterState None [] [] [] [] [] [] [].

Inductive SortDirection := asc | desc.

(** [interface Preset]. *)
Record Preset := mkPreset {
  name : string;
  filters : FilterState;
  sortKey : string;
  sortDirection : SortDirection
}.

(** [Object.entries(filters)]: the own properties, an absent [OID] left
    out. *)
Definition entries (f : FilterState) : list (FilterKey * list string) :=
  (match f_OID f with Some l => [(K_OID, l)] | None => [] end) ++
  [ (K_status, f_status f); (K_type, f_type f); (K_lock, f_lock f);
    (K_customer, f_customer f); (K_model, f_model f);
    (K_designer, f_designer f); (K_days, f_days f) ].

(** [filters[key] || []]. *)
Definition get_field (f : FilterState) (k : FilterKey) : list string :=
  match k with
  | K_OID => match f_OID f with Some l => l | None => [] end
  | K_status => f_status f
  | K_type => f_type f
  | K_lock => f_lock f
  | K_customer => f_customer f
  | K_model => f_model f
  | K_designer => f_designer f
  | K_days => f_days f
  end.

(** [{ ...filters, [key]: v }]. *)
Definition set_field (f : FilterState) (k : FilterKey) (v : list string) : FilterState :=
  match k with
  | K_OID => mkFilterState (Some v) (f_status f) (f_type f) (f_lock f) (f_customer f) (f_model f) (f_designer f) (f_days f)
  | K_status => mkFilterState (f_OID f) v (f_type f) (f_lock f) (f_customer f) (f_model f) (f_designer f) (f_days f)
  | K_type => mkFilterState (f_OID f) (f_status f) v (f_lock f) (f_customer f) (f_model f) (f_designer f) (f_days f)
  | K_lock => mkFilterState (f_OID f) (f_status f) (f_type f) v (f_customer f) (f_model f) (f_designer f) (f_days f)
  | K_customer => mkFilterState (f_OID f) (f_status f) (f_type f) (f_lock f) v (f_model f) (f_designer f) (f_days f)
  | K_model => mkFilterState (f_OID f) (f_status f) (f_type f) (f_lock f) (f_customer f) v (f_designer f) (f_days f)
  | K_designer => mkFilterState (f_OID f) (f_status f) (f_type f) (f_lock f) (f_customer f) (f_model f) v (f_days f)
  | K_days => mkFilterState (f_OID f) (f_status f) (f_type f) (f_lock f) (f_customer f) (f_model f) (f_designer f) v
  end.

(* ================================================================= *)
(** ** Filter evaluator ([matchDays], [filteredOrders] in [page.tsx]) *)

(** [selected.includes(x)] on an array of strings: membership up to
    SameValueZero, so a number or [undefined] is never a member. *)
Definition includes (selected : list string) (x : JsVal) : bool :=
  match x with
  | VString s => existsb (String.eqb s) selected
  | _ => false
  end.

(** [parseInt(f.replace("<", ""), 10)]. *)
Definition threshold (f : string) : option Z := parseInt (replace_first "<" f).

(** [value < threshold], false when the threshold is [NaN].  For a
    [value] strictly between -2^53 and 2^53 the answer is the one the
    engine computes on the rounded threshold (lemma [below_rounded]). *)
Definition below (value : Z) (t : option Z) : bool :=
  match t with
  | Some n => value <? n
  | None => false
  end.

Definition matchDays (value : Z) (filters : list string) : bool :=
  if (List.length filters =? 0)%nat then true
  else existsb (fun f => below value (threshold f)) filters.

(** The callback of [Object.entries(filters).every]. *)
Definition entry_matches (order : Order) (e : FilterKey * list string) : bool :=
  let '(key, selected) := e in
  if (List.length selected =? 0)%nat then true
  else match key with
       | K_days => matchDays (daysSinceOrder order) selected
       | K_status =>
           includes selected (VString (statusLeft order)) ||
           includes selected (VString (statusRight order))
       | _ => includes selected (order_get order (key_name key))
       end.

(** The callback of [allOrders.filter]. *)
Definition matches (order : Order) (filters : FilterState) : bool :=
  forallb (entry_matches order) (entries filters).

Definition filteredOrders (allOrders : list Order) (filters : FilterState) : list Order :=
  filter (fun order => matches order filters) allOrders.

(* ================================================================= *)
(** ** Sort comparator and query pipeline ([sortedAndFilteredOrders]) *)

Definition statusPriority : list string :=
  [ "Open Order"; "Printing"; "Drying"; "QC"; "Ready for Packaging"; "Delivered" ].

Fixpoint indexOf_from (i : Z) (l : list string) (x : string) : Z :=
  match l with
  | [] => -1
  | y :: l' => if String.eqb y x then i else indexOf_from (i + 1) l' x
  end.

(** [l.indexOf(x)]: the first index holding [x], [-1] when there is none. *)
Definition indexOf (l : list string) (x : string) : Z := indexOf_from 0 l x.

(** [aValue] (and [bValue]) of the comparator, by sort key. *)
Definition sort_value (sortKey : string) (a : Order) : JsVal :=
  if String.eqb sortKey "daysSinceOrder" then VNumber (daysSinceOrder a)
  else if String.eqb sortKey "status" then VNumber (indexOf statusPriority (statusLeft a))
  else order_get a sortKey.

(** [x < y] on the values a sort key can yield.  [undefined] converts to
    [NaN], so a comparison with it is false.  The two operands of the
    comparator are read under the same key, so a number never meets a
    string (lemma [sort_value_same_kind]); that case is put to false. *)
Definition js_lt (x y : JsVal) : bool :=
  match x, y with
  | VNumber m, VNumber n => m <? n
  | VString s, VString t => string_ltb s t
  | _, _ => false
  end.

(** The comparator passed to [sort]. *)
Definition compareFn (sortKey : string) (sortDirection : SortDirection) (a b : Order) : Z :=
  let aValue := sort_value sortKey a in
  let bValue := sort_value sortKey b in
  if js_lt aValue bValue then match sortDirection with asc => -1 | desc => 1 end
  else if js_lt bValue aValue then match sortDirection with asc => 1 | desc => -1 end
  else 0.

Section ArraySort.
Context {A : Type}.
Variable comparefn : A -> A -> Z.

(** [x] goes in front of the first element it does not come after, so it
    stays ahead of its equals. *)
Fixpoint insert_sorted (x : A) (l : list A) : list A :=
  match l with
  | [] => [x]
  | y :: l' => if comparefn x y <=? 0 then x :: l else y :: insert_sorted x l'
  end.

(** [Array.prototype.sort(comparefn)].  The language requires the sort to
    be stable and leaves the algorithm open; for a consistent comparator
    the sorted, stable arrangement is unique (lemma [stable_sort_unique]),
    so insertion from the right computes what every conforming engine
    returns. *)
Fixpoint sort (l : list A) : list A :=
  match l with
  | [] => []
  | x :: l' => insert_sorted x (sort l')
  end.

End ArraySort.

Definition sortedAndFilteredOrders
    (allOrders : list Order) (filters : FilterState)
    (sortKey : string) (sortDirection : SortDirection) : list Order :=
  sort (compareFn sortKey sortDirection) (filteredOrders allOrders filters).

(* ================================================================= *)
(** ** Pagination ([OrderTable]) *)

Definition rowsPerPage : Z := 10.

(** [Math.ceil(n / d)] for integers [n >= 0] and [d > 0]. *)
Definition Math_ceil_div (n d : Z) : Z :=
  if n mod d =? 0 then n / d else n / d + 1.

Definition pages (data : list Order) : Z :=
  Math_ceil_div (Z.of_nat (List.length data)) rowsPerPage.

(** [l.slice(start, end)]: negative indices count from the end, both are
    clamped to the array. *)
Definition slice {A : Type} (l : list A) (start final : Z) : list A :=
  let len := Z.of_nat (List.length l) in
  let k := if start <? 0 then Z.max (len + start) 0 else Z.min start len in
  let e := if final <? 0 then Z.max (len + final) 0 else Z.min final len in
  firstn (Z.to_nat (e - k)) (skipn (Z.to_nat k) l).

Definition paginatedData (data : list Order) (page : Z) : list Order :=
  slice data ((page - 1) * rowsPerPage) (page * rowsPerPage).

(* ================================================================= *)
(** ** Option lists ([uniqueValues] in [page.tsx], [getOptionsForKey]) *)

Section JsSet.
Context {A : Type}.
Variable eqb : A -> A -> bool.

(** [set.has(x)] on the insertion-ordered content of a [Set]. *)
Definition Set_has (content : list A) (x : A) : bool := existsb (eqb x) content.

(** [set.add(x)]: a new value goes last, a present one changes nothing. *)
Definition Set_add (content : list A) (x : A) : list A :=
  if Set_has content x then content else content ++ [x].

(** [set.delete(x)]. *)
Definition Set_delete (content : list A) (x : A) : list A :=
  filter (fun y => negb (eqb x y)) content.

(** [Array.from(new Set(l))]: the values of [l] in first-seen order. *)
Definition Array_from_Set (l : list A) : list A := fold_left Set_add l [].

End JsSet.

(** SameValueZero on the values of the model. *)
Definition JsVal_eqb (x y : JsVal) : bool :=
  match x, y with
  | VUndefined, VUndefined => true
  | VNumber m, VNumber n => m =? n
  | VString s, VString t => String.eqb s t
  | _, _ => false
  end.

(** [Boolean(v)]: the empty string, zero and [undefined] are falsy. *)
Definition Boolean (v : JsVal) : bool :=
  match v with
  | VUndefined => false
  | VNumber n => negb (n =? 0)
  | VString s => negb (String.eqb s "")
  end.

(** The cast [as string[]]: it is applied to values read under string
    keys only, where every element is a string. *)
Definition as_strings (l : list JsVal) : list string :=
  flat_map (fun v => match v with VString s => [s] | _ => [] end) l.

Definition getUnique (allOrders : list Order) (key : string) : list string :=
  as_strings
    (filter Boolean (Array_from_Set JsVal_eqb (map (fun o => order_get o key) allOrders))).

Definition allStatuses (allOrders : list Order) : list string :=
  Array_from_Set String.eqb (flat_map (fun o => [statusLeft o; statusRight o]) allOrders).

Record UniqueValues := mkUniqueValues {
  u_OID : list string;
  u_days : list string;
  u_status : list string;
  u_type : list string;
  u_lock : list string;
  u_customer : list string;
  u_model : list string;
  u_designer : list string
}.

Definition uniqueValues (allOrders : list Order) : UniqueValues :=
  {| u_OID := [];
     u_days := [];
     u_status := allStatuses allOrders;
     u_type := getUnique allOrders "type";
     u_lock := getUnique allOrders "lock";
     u_customer := getUnique allOrders "customer";
     u_model := getUnique allOrders "model";
     u_designer := getUnique allOrders "designer" |}.

Definition DAYS_FILTER_OPTIONS : list string := [ "<5"; "<15"; "<30"; "<60" ].

(** [uniqueValues[key] || []]. *)
Definition unique_field (u : UniqueValues) (key : FilterKey) : list string :=
  match key with
  | K_OID => u_OID u
  | K_status => u_status u
  | K_type => u_type u
  | K_lock => u_lock u
  | K_customer => u_customer u
  | K_model => u_model u
  | K_designer => u_designer u
  | K_days => u_days u
  end.

Definition getOptionsForKey (u : UniqueValues) (key : FilterKey) : list string :=
  match key with
  | K_days => DAYS_FILTER_OPTIONS
  | _ => unique_field u key
  end.

(* ================================================================= *)
(** ** JSON text ([JSON.stringify], [JSON.parse]) *)

(** A parsed JSON text.  A number keeps its numeral: the dashboard never
    stores one.  [JOutside] is a string that holds a code unit above 255
    (written [\uXXXX] in the text), or an object with such a key: a value
    of [JSON.parse] that the strings of this model cannot hold. *)
Inductive json :=
| JNull
| JBool (b : bool)
| JNumber (numeral : string)
| JString (s : string)
| JArray (items : list json)
| JObject (members : list (string * json))
| JOutside.

Definition dquote : ascii := ascii_of_nat 34.
Definition bslash : ascii := ascii_of_nat 92.

Definition hex_digit (n : nat) : ascii :=
  if (n <? 10)%nat then ascii_of_nat (48 + n) else ascii_of_nat (87 + n).

Definition hex_value (c : ascii) : option nat :=
  let n := nat_of_ascii c in
  if (48 <=? n)%nat && (n <=? 57)%nat then Some (n - 48)%nat
  else if (97 <=? n)%nat && (n <=? 102)%nat then Some (n - 87)%nat
  else if (65 <=? n)%nat && (n <=? 70)%nat then Some (n - 55)%nat
  else None.

(** One code unit inside a quoted JSON string, as [JSON.stringify] writes
    it: the short escapes, [\u00XX] for the other control characters, the
    code unit itself otherwise. *)
Definition quote_char (c : ascii) : string :=
  let n := nat_of_ascii c in
  if (n =? 8)%nat then String bslash "b"
  else if (n =? 9)%nat then String bslash "t"
  else if (n =? 10)%nat then String bslash "n"
  else if (n =? 12)%nat then String bslash "f"
  else if (n =? 13)%nat then String bslash "r"
  else if (n =? 34)%nat then String bslash (String dquote EmptyString)
  else if (n =? 92)%nat then String bslash (String bslash EmptyString)
  else if (n <? 32)%nat then
    String bslash (String "u" (String "0" (String "0"
      (String (hex_digit (n / 16)) (String (hex_digit (n mod 16)) EmptyString)))))
  else String c EmptyString.

Fixpoint quote_chars (s : string) : string :=
  match s with
  | EmptyString => EmptyString
  | String c r => (quote_char c ++ quote_chars r)%string
  end.

Definition quote (s : string) : string :=
  String dquote (quote_chars s ++ String dquote EmptyString)%string.

(** [JSON.stringify(v)] without indentation.  The front end writes values
    it built from its own state, never a [JOutside]; that case is here for
    totality only. *)
Fixpoint stringify (v : json) : string :=
  match v with
  | JOutside => EmptyString
  | JNull => "null"
  | JBool true => "true"
  | JBool false => "false"
  | JNumber numeral => numeral
  | JString s => quote s
  | JArray items => ("[" ++ String.concat "," (map stringify items) ++ "]")%string
  | JObject members =>
      ("{" ++
       String.concat ","
         (map (fun kv => quote (fst kv) ++ ":" ++ stringify (snd kv)) members) ++
       "}")%string
  end.

(** No number and no [JOutside] occurs in [v]. *)
Fixpoint number_free (v : json) : bool :=
  match v with
  | JNumber _ => false
  | JOutside => false
  | JArray items => forallb number_free items
  | JObject members => forallb (fun kv => number_free (snd kv)) members
  | _ => true
  end.

(** The calls [parse_value] makes to read [v] back. *)
Fixpoint json_size (v : json) : nat :=
  match v with
  | JArray items => S (list_sum (map (fun x => S (json_size x)) items))
  | JObject members => S (list_sum (map (fun kv => S (json_size (snd kv))) members))
  | _ => 1
  end.

(** JSON white space: space, TAB, LF, CR. *)
Definition is_json_ws (c : ascii) : bool :=
  let n := nat_of_ascii c in
  (n =? 32)%nat || (n =? 9)%nat || (n =? 10)%nat || (n =? 13)%nat.

Fixpoint skip_ws (s : string) : string :=
  match s with
  | String c r => if is_json_ws c then skip_ws r else s
  | EmptyString => EmptyString
  end.

(** [s] without the prefix [p], when it starts with it. *)
Fixpoint strip_prefix (p s : string) : option string :=
  match p, s with
  | EmptyString, _ => Some s
  | String a p', String b s' => if Ascii.eqb a b then strip_prefix p' s' else None
  | String _ _, EmptyString => None
  end.

(** The escape [\e] for a one-letter [e]. *)
Definition unescape (e : ascii) : option ascii :=
  if Ascii.eqb e dquote then Some dquote
  else if Ascii.eqb e bslash then Some bslash
  else if Ascii.eqb e "/" then Some "/"%char
  else if Ascii.eqb e "b" then Some (ascii_of_nat 8)
  else if Ascii.eqb e "f" then Some (ascii_of_nat 12)
  else if Ascii.eqb e "n" then Some (ascii_of_nat 10)
  else if Ascii.eqb e "r" then Some (ascii_of_nat 13)
  else if Ascii.eqb e "t" then Some (ascii_of_nat 9)
  else None.

Definition hex4 (a b c d : ascii) : option nat :=
  match hex_value a, hex_value b, hex_value c, hex_value d with
  | Some x, Some y, Some z, Some w => Some (((x * 16 + y) * 16 + z) * 16 + w)%nat
  | _, _, _, _ => None
  end.

(** What a string literal denotes: [Some s] for a string of this model,
    [None] for one that holds a code unit above 255. *)
Definition cons_char (c : ascii) (r : option (option string * string))
  : option (option string * string) :=
  match r with
  | Some (s, rest) => Some (option_map (String c) s, rest)
  | None => None
  end.

Definition wide_char (r : option (option string * string))
  : option (option string * string) :=
  match r with
  | Some (_, rest) => Some (None, rest)
  | None => None
  end.

(** The characters of a string literal after its opening quote, up to and
    including the closing quote: the string it denotes and the text left.
    The outer [None] is a syntax error.  A [\uXXXX] above [\u00FF] is
    well-formed; the literal then denotes a string outside this model. *)
Fixpoint parse_string_body (s : string) : option (option string * string) :=
  match s with
  | EmptyString => None
  | String c r =>
      if Ascii.eqb c dquote then Some (Some EmptyString, r)
      else if Ascii.eqb c bslash then
        match r with
        | EmptyString => None
        | String e r' =>
            if Ascii.eqb e "u" then
              match r' with
              | String h1 (String h2 (String h3 (String h4 r''))) =>
                  match hex4 h1 h2 h3 h4 with
                  | Some n =>
                      if (n <? 256)%nat then cons_char (ascii_of_nat n) (parse_string_body r'')
                      else wide_char (parse_string_body r'')
                  | None => None
                  end
              | _ => None
              end
            else
              match unescape e with
              | Some ch => cons_char ch (parse_string_body r')
              | None => None
              end
        end
      else if (nat_of_ascii c <? 32)%nat then None
      else cons_char c (parse_string_body r)
  end.

(** The longest prefix of decimal digits and what follows it. *)
Fixpoint span_digits (s : string) : string * string :=
  match s with
  | String c r =>
      if is_digit c then let '(d, rest) := span_digits r in (String c d, rest)
      else (EmptyString, s)
  | EmptyString => (EmptyString, EmptyString)
  end.

(** A JSON numeral: an optional minus; a zero, or a non-zero digit and
    more digits; an optional fraction (a point and digits); an optional
    exponent (e or E, an optional sign, digits). *)
Definition parse_number (s : string) : option (string * string) :=
  let '(sign, s1) :=
    match s with
    | String c r => if Ascii.eqb c "-" then ("-", r) else (EmptyString, s)
    | EmptyString => (EmptyString, s)
    end in
  let '(int, s2) :=
    match s1 with
    | String c r => if Ascii.eqb c "0" then ("0", r) else span_digits s1
    | EmptyString => (EmptyString, s1)
    end in
  if String.eqb int EmptyString then None
  else
    let '(frac, s3) :=
      match s2 with
      | String c r =>
          if Ascii.eqb c "." then
            let '(d, rest) := span_digits r in
            if String.eqb d EmptyString then (None, s2) else (Some (String c d), rest)
          else (Some EmptyString, s2)
      | EmptyString => (Some EmptyString, s2)
      end in
    match frac with
    | None => None
    | Some fr =>
        let '(ex, s4) :=
          match s3 with
          | String c r =>
              if Ascii.eqb c "e" || Ascii.eqb c "E" then
                let '(sg, r1) :=
                  match r with
                  | String g r0 =>
                      if Ascii.eqb g "+" || Ascii.eqb g "-" then (String g EmptyString, r0)
                      else (EmptyString, r)
                  | EmptyString => (EmptyString, r)
                  end in
                let '(d, rest) := span_digits r1 in
                if String.eqb d EmptyString then (None, s3) else (Some (String c (sg ++ d)%string), rest)
              else (Some EmptyString, s3)
          | EmptyString => (Some EmptyString, s3)
          end in
        match ex with
        | None => None
        | Some e => Some ((sign ++ int ++ fr ++ e)%string, s4)
        end
    end.

Definition with_rest {A B : Type} (f : A -> B) (r : option (A * string)) : option (B * string) :=
  match r with
  | Some (a, rest) => Some (f a, rest)
  | None => None
  end.

(** The value of a string literal. *)
Definition string_value (s : option string) : json :=
  match s with
  | Some s => JString s
  | None => JOutside
  end.

(** One more member in front of the members read so far; [None] once a key
    lies outside the strings of this model. *)
Definition add_member (k : option string) (v : json)
    (members : option (list (string * json))) : option (list (string * json)) :=
  match k, members with
  | Some k, Some members => Some ((k, v) :: members)
  | _, _ => None
  end.

(** The value of an object literal. *)
Definition object_value (members : option (list (string * json))) : json :=
  match members with
  | Some members => JObject members
  | None => JOutside
  end.

(** Recursive descent over the JSON grammar; [fuel] bounds the number of
    nested calls.  Each function returns the value read and the text left. *)
Fixpoint parse_value (fuel : nat) (s : string) : option (json * string) :=
  match fuel with
  | O => None
  | S fuel' =>
      match skip_ws s with
      | EmptyString => None
      | String c r =>
          if Ascii.eqb c "{" then
            match skip_ws r with
            | String c' r' =>
                if Ascii.eqb c' "}" then Some (JObject [], r')
                else with_rest object_value (parse_members fuel' r)
            | EmptyString => None
            end
          else if Ascii.eqb c "[" then
            match skip_ws r with
            | String c' r' =>
                if Ascii.eqb c' "]" then Some (JArray [], r')
                else with_rest JArray (parse_elems fuel' r)
            | EmptyString => None
            end
          else if Ascii.eqb c dquote then with_rest string_value (parse_string_body r)
          else if Ascii.eqb c "t" then with_rest (fun _ => JBool true) (option_map (pair tt) (strip_prefix "rue" r))
          else if Ascii.eqb c "f" then with_rest (fun _ => JBool false) (option_map (pair tt) (strip_prefix "alse" r))
          else if Ascii.eqb c "n" then with_rest (fun _ => JNull) (option_map (pair tt) (strip_prefix "ull" r))
          else with_rest JNumber (parse_number (String c r))
      end
  end
with parse_elems (fuel : nat) (s : string) : option (list json * string) :=
  match fuel with
  | O => None
  | S fuel' =>
      match parse_value fuel' s with
      | None => None
      | Some (v, r) =>
          match skip_ws r with
          | String c r' =>
              if Ascii.eqb c "," then with_rest (cons v) (parse_elems fuel' r')
              else if Ascii.eqb c "]" then Some ([v], r')
              else None
          | EmptyString => None
          end
      end
  end
with parse_members (fuel : nat) (s : string)
  : option (option (list (string * json)) * string) :=
  match fuel with
  | O => None
  | S fuel' =>
      match skip_ws s with
      | String c r =>
          if Ascii.eqb c dquote then
            match parse_string_body r with
            | Some (k, r1) =>
                match skip_ws r1 with
                | String c1 r2 =>
                    if Ascii.eqb c1 ":" then
                      match parse_value fuel' r2 with
                      | Some (v, r3) =>
                          match skip_ws r3 with
                          | String c3 r4 =>
                              if Ascii.eqb c3 "," then
                                with_rest (add_member k v) (parse_members fuel' r4)
                              else if Ascii.eqb c3 "}" then Some (add_member k v (Some []), r4)
                              else None
                          | EmptyString => None
                          end
                      | None => None
                      end
                    else None
                | EmptyString => None
                end
            | None => None
            end
          else None
      | EmptyString => None
      end
  end.

(** [JSON.parse(text)]: one value, white space around it, nothing else.
    [None] stands for the [SyntaxError] the call throws; a text that is
    well-formed always has a value, [JOutside] where this model has no
    string for it. *)
Definition JSON_parse (text : string) : option json :=
  match parse_value (2 * String.length text + 2) text with
  | Some (v, rest) => if String.eqb (skip_ws rest) EmptyString then Some v else None
  | None => None
  end.

(* ================================================================= *)
(** ** Presets and filter states as JSON values *)

Definition json_of_strings (l : list string) : json := JArray (map JString l).

(** The own properties of a [FilterState] in the order of the interface;
    an absent [OID] is not written. *)
Definition json_of_FilterState (f : FilterState) : json :=
  JObject
    ((match f_OID f with Some l => [("OID", json_of_strings l)] | None => [] end) ++
     [ ("status", json_of_strings (f_status f));
       ("type", json_of_strings (f_type f));
       ("lock", json_of_strings (f_lock f));
       ("customer", json_of_strings (f_customer f));
       ("model", json_of_strings (f_model f));
       ("designer", json_of_strings (f_designer f));
       ("days", json_of_strings (f_days f)) ]).

Definition direction_name (d : SortDirection) : string :=
  match d with asc => "asc" | desc => "desc" end.

Definition json_of_Preset (p : Preset) : json :=
  JObject
    [ ("name", JString (name p));
      ("filters", json_of_FilterState (filters p));
      ("sortKey", JString (sortKey p));
      ("sortDirection", JString (direction_name (sortDirection p))) ].

Definition json_of_presets (ps : list Preset) : json := JArray (map json_of_Preset ps).

(** [obj[key]] on a parsed object: of two members with one key the later
    one stands. *)
Fixpoint lookup (key : string) (members : list (string * json)) : option json :=
  match members with
  | [] => None
  | (k, v) :: rest =>
      match lookup key rest with
      | Some w => Some w
      | None => if String.eqb k key then Some v else None
      end
  end.

Definition only_keys (allowed : list string) (members : list (string * json)) : bool :=
  forallb (fun kv => existsb (String.eqb (fst kv)) allowed) members.

(** The casts of the front end ([as Preset[]], the type of [setFilters]) are
    not checked at run time.  The decoders below read a parsed value at its
    declared type and answer [None] for a value that is not of that type:
    such a value lies outside this typed model. *)
Fixpoint strings_of_items (items : list json) : option (list string) :=
  match items with
  | [] => Some []
  | JString s :: rest => option_map (cons s) (strings_of_items rest)
  | _ :: _ => None
  end.

Definition strings_of_json (v : json) : option (list string) :=
  match v with
  | JArray items => strings_of_items items
  | _ => None
  end.

Definition field_of (key : string) (members : list (string * json)) : option (list string) :=
  match lookup key members with
  | Some v => strings_of_json v
  | None => None
  end.

Definition FilterState_of_json (v : json) : option FilterState :=
  match v with
  | JObject ms =>
      if only_keys ["OID"; "status"; "type"; "lock"; "customer"; "model"; "designer"; "days"] ms
      then
        match (match lookup "OID" ms with
               | Some w => option_map Some (strings_of_json w)
               | None => Some None
               end),
              field_of "status" ms, field_of "type" ms, field_of "lock" ms,
              field_of "customer" ms, field_of "model" ms, field_of "designer" ms,
              field_of "days" ms with
        | Some o, Some st, Some ty, Some lo, Some cu, Some mo, Some de, Some da =>
            Some (mkFilterState o st ty lo cu mo de da)
        | _, _, _, _, _, _, _, _ => None
        end
      else None
  | _ => None
  end.

Definition direction_of_name (s : string) : option SortDirection :=
  if String.eqb s "asc" then Some asc
  else if String.eqb s "desc" then Some desc
  else None.

Definition Preset_of_json (v : json) : option Preset :=
  match v with
  | JObject ms =>
      if only_keys ["name"; "filters"; "sortKey"; "sortDirection"] ms then
        match lookup "name" ms, lookup "filters" ms, lookup "sortKey" ms, lookup "sortDirection" ms with
        | Some (JString n), Some fv, Some (JString k), Some (JString d) =>
            match FilterState_of_json fv, direction_of_name d with
            | Some f, Some dir => Some (mkPreset n f k dir)
            | _, _ => None
            end
        | _, _, _, _ => None
        end
      else None
  | _ => None
  end.

Fixpoint presets_of_items (items : list json) : option (list Preset) :=
  match items with
  | [] => Some []
  | v :: rest =>
      match Preset_of_json v, presets_of_items rest with
      | Some p, Some ps => Some (p :: ps)
      | _, _ => None
      end
  end.

Definition presets_of_json (v : json) : option (list Preset) :=
  match v with
  | JArray items => presets_of_items items
  | _ => None
  end.

(* ================================================================= *)
(** ** Application state and [localStorage] *)

(** [localStorage]: a store of strings under string keys. *)
Definition Storage := string -> option string.

Definition getItem (ls : Storage) (key : string) : option string := ls key.

Definition setItem (ls : Storage) (key value : string) : Storage :=
  fun k => if String.eqb k key then Some value else ls k.

Definition removeItem (ls : Storage) (key : string) : Storage :=
  fun k => if String.eqb k key then None else ls k.

Definition empty_storage : Storage := fun _ => None.

(** The state of the three components: [HomePage] ([filters] to
    [loading]), [OrderTable] ([page]), [PresetManager] ([open], [name],
    [presets]); the store, and what [console.warn] has printed. *)
Record AppState := mkAppState {
  st_filters : FilterState;
  st_sortKey : string;
  st_sortDirection : SortDirection;
  st_activePresetName : option string;
  st_loading : bool;
  st_page : Z;
  st_open : bool;
  st_name : string;
  st_presets : list Preset;
  st_localStorage : Storage;
  st_warnings : list string
}.

Definition initial_state (ls : Storage) : AppState :=
  mkAppState defaultFilterState "oid" asc None true 1 false EmptyString [] ls [].

Definition setFilters (f : FilterState) (st : AppState) : AppState :=
  mkAppState f (st_sortKey st) (st_sortDirection st) (st_activePresetName st) (st_loading st)
    (st_page st) (st_open st) (st_name st) (st_presets st) (st_localStorage st) (st_warnings st).

Definition setSortKey (k : string) (st : AppState) : AppState :=
  mkAppState (st_filters st) k (st_sortDirection st) (st_activePresetName st) (st_loading st)
    (st_page st) (st_open st) (st_name st) (st_presets st) (st_localStorage st) (st_warnings st).

Definition setSortDirection (d : SortDirection) (st : AppState) : AppState :=
  mkAppState (st_filters st) (st_sortKey st) d (st_activePresetName st) (st_loading st)
    (st_page st) (st_open st) (st_name st) (st_presets st) (st_localStorage st) (st_warnings st).

Definition setActivePresetName (n : option string) (st : AppState) : AppState :=
  mkAppState (st_filters st) (st_sortKey st) (st_sortDirection st) n (st_loading st)
    (st_page st) (st_open st) (st_name st) (st_presets st) (st_localStorage st) (st_warnings st).

Definition setLoading (b : bool) (st : AppState) : AppState :=
  mkAppState (st_filters st) (st_sortKey st) (st_sortDirection st) (st_activePresetName st) b
    (st_page st) (st_open st) (st_name st) (st_presets st) (st_localStorage st) (st_warnings st).

Definition setPage (p : Z) (st : AppState) : AppState :=
  mkAppState (st_filters st) (st_sortKey st) (st_sortDirection st) (st_activePresetName st)
    (st_loading st) p (st_open st) (st_name st) (st_presets st) (st_localStorage st) (st_warnings st).

Definition setOpen (b : bool) (st : AppState) : AppState :=
  mkAppState (st_filters st) (st_sortKey st) (st_sortDirection st) (st_activePresetName st)
    (st_loading st) (st_page st) b (st_name st) (st_presets st) (st_localStorage st) (st_warnings st).

Definition setName (n : string) (st : AppState) : AppState :=
  mkAppState (st_filters st) (st_sortKey st) (st_sortDirection st) (st_activePresetName st)
    (st_loading st) (st_page st) (st_open st) n (st_presets st) (st_localStorage st) (st_warnings st).

Definition setPresets (ps : list Preset) (st : AppState) : AppState :=
  mkAppState (st_filters st) (st_sortKey st) (st_sortDirection st) (st_activePresetName st)
    (st_loading st) (st_page st) (st_open st) (st_name st) ps (st_localStorage st) (st_warnings st).

Definition setStorage (ls : Storage) (st : AppState) : AppState :=
  mkAppState (st_filters st) (st_sortKey st) (st_sortDirection st) (st_activePresetName st)
    (st_loading st) (st_page st) (st_open st) (st_name st) (st_presets st) ls (st_warnings st).

Definition console_warn (msg : string) (st : AppState) : AppState :=
  mkAppState (st_filters st) (st_sortKey st) (st_sortDirection st) (st_activePresetName st)
    (st_loading st) (st_page st) (st_open st) (st_name st) (st_presets st) (st_localStorage st)
    (st_warnings st ++ [msg]).

(** How a handler or an effect ends: it returns, or an exception leaves it
    uncaught, or it was handed a stored value that is well-formed JSON of
    another shape than its declared type, which this model does not
    follow. *)
Inductive outcome :=
| Normal (st : AppState)
| Throws (error : string)
| IllTyped.

(* ================================================================= *)
(** ** Event handlers of [OrderTable] *)

Definition handleToggleOption (key : FilterKey) (option : string) (st : AppState) : AppState :=
  let current := Array_from_Set String.eqb (get_field (st_filters st) key) in
  let current :=
    if Set_has String.eqb current option
    then Set_delete String.eqb current option
    else Set_add String.eqb current option in
  setPage 1 (setFilters (set_field (st_filters st) key current) st).

Definition selectAll (key : FilterKey) (options : list string) (st : AppState) : AppState :=
  setPage 1 (setFilters (set_field (st_filters st) key options) st).

Definition clearFilter (key : FilterKey) (st : AppState) : AppState :=
  setPage 1 (setFilters (set_field (st_filters st) key []) st).

Definition handleAllSelect (u : UniqueValues) (st : AppState) : AppState :=
  let newFilters :=
    mkFilterState None (u_status u) (u_type u) (u_lock u) (u_customer u)
      (u_model u) (u_designer u) DAYS_FILTER_OPTIONS in
  setPage 1 (setFilters newFilters st).

(** The [onPress] of the "Clear Selection" button. *)
Definition clearSelection (st : AppState) : AppState :=
  let st := setFilters (mkFilterState None [] [] [] [] [] [] []) st in
  let st := setStorage (removeItem (st_localStorage st) "active-order-preset") st in
  setActivePresetName None st.

(** The [onChange] of the pagination control. *)
Definition changePage (page : Z) (st : AppState) : AppState := setPage page st.

(* ================================================================= *)
(** ** [PresetManager] *)

(** The effect run when the component mounts. *)
Definition loadPresets (st : AppState) : outcome :=
  match getItem (st_localStorage st) "order-presets" with
  | None => Normal st
  | Some saved =>
      if String.eqb saved EmptyString then Normal st
      else
        match JSON_parse saved with
        | None => Throws "SyntaxError"
        | Some v =>
            match presets_of_json v with
            | Some ps => Normal (setPresets ps st)
            | None => IllTyped
            end
        end
  end.

Definition savePreset (st : AppState) : outcome :=
  if String.eqb (trim (st_name st)) EmptyString then Normal st
  else
    let newPreset :=
      mkPreset (st_name st) (st_filters st) (st_sortKey st) (st_sortDirection st) in
    let updated :=
      filter (fun p => negb (String.eqb (name p) (st_name st))) (st_presets st) ++ [newPreset] in
    let st := setPresets updated st in
    let st :=
      setStorage
        (setItem (st_localStorage st) "order-presets" (stringify (json_of_presets updated))) st in
    Normal (setName EmptyString st).

Definition loadPreset (preset : Preset) (st : AppState) : AppState :=
  let st := setFilters (filters preset) st in
  let st := setSortKey (sortKey preset) st in
  let st := setSortDirection (sortDirection preset) st in
  let st := setActivePresetName (Some (name preset)) st in
  let st := setStorage (setItem (st_localStorage st) "active-order-preset" (name preset)) st in
  setOpen false st.

Definition deletePreset (n : string) (st : AppState) : AppState :=
  let updated := filter (fun p => negb (String.eqb (name p) n)) (st_presets st) in
  let st := setPresets updated st in
  let st :=
    setStorage
      (setItem (st_localStorage st) "order-presets" (stringify (json_of_presets updated))) st in
  match getItem (st_localStorage st) "active-order-preset" with
  | Some active =>
      if String.eqb active n
      then setActivePresetName None
             (setStorage (removeItem (st_localStorage st) "active-order-preset") st)
      else st
  | None => st
  end.

(** The "Load" button of the preset called [n]: the list shows one row per
    stored preset, the row of [n] loads it. *)
Definition load (n : string) (st : AppState) : option (Preset * AppState) :=
  match find (fun p => String.eqb (name p) n) (st_presets st) with
  | Some p => Some (p, loadPreset p st)
  | None => None
  end.

(* ================================================================= *)
(** ** Effects of [HomePage] *)

Definition validKeys : list string :=
  [ "oid"; "daysSinceOrder"; "status";
    "statusLeft"; "statusRight"; "type"; "lock"; "customer"; "model"; "designer" ].

Definition truthy (s : option string) : bool :=
  match s with
  | Some v => negb (String.eqb v EmptyString)
  | None => false
  end.

(** What the [try] block does after the active preset was looked for:
    the filters and the sort of the previous session are restored.
    [allOrders[0]] is read for the valid sort keys, which throws a
    [TypeError] on an empty collection. *)
Definition restore_session (allOrders : list Order) (st : AppState) : outcome :=
  let ls := st_localStorage st in
  match allOrders with
  | [] => Throws "TypeError"
  | _ :: _ =>
      let restored :=
        match getItem ls "order-filters" with
        | Some raw =>
            if String.eqb raw EmptyString then Normal st
            else
              match JSON_parse raw with
              | None => Throws "SyntaxError"
              | Some v =>
                  match FilterState_of_json v with
                  | Some f => Normal (setFilters f st)
                  | None => IllTyped
                  end
              end
        | None => Normal st
        end in
      match restored with
      | Normal st =>
          let st :=
            match getItem ls "order-sortKey" with
            | Some key => if existsb (String.eqb key) validKeys then setSortKey key st else st
            | None => st
            end in
          let st :=
            match getItem ls "order-sortDirection" with
            | Some dir =>
                match direction_of_name dir with
                | Some d => setSortDirection d st
                | None => st
                end
            | None => st
            end in
          Normal st
      | other => other
      end
  end.

(** The body of the [try] block of the first effect.  [inl] is the early
    [return] out of the effect, [inr] the end of the block. *)
Definition load_saved (allOrders : list Order) (st : AppState) : outcome + outcome :=
  let ls := st_localStorage st in
  let savedPresets := getItem ls "order-presets" in
  let activeName := getItem ls "active-order-preset" in
  let fallback := inr (restore_session allOrders st) in
  if truthy savedPresets && truthy activeName then
    match savedPresets, activeName with
    | Some saved, Some an =>
        match JSON_parse saved with
        | None => inr (Throws "SyntaxError")
        | Some v =>
            match presets_of_json v with
            | None => inr IllTyped
            | Some all =>
                match find (fun p => String.eqb (name p) an) all with
                | Some active =>
                    inl (Normal
                      (setLoading false
                        (setActivePresetName (Some (name active))
                          (setSortDirection (sortDirection active)
                            (setSortKey (sortKey active)
                              (setFilters (filters active) st))))))
                | None => fallback
                end
            end
        end
    | _, _ => fallback
    end
  else fallback.

(** The first effect of [HomePage]: whatever the [try] block throws is
    caught and reported by [console.warn]; loading ends either way. *)
Definition HomePage_mount (allOrders : list Order) (st : AppState) : outcome :=
  match load_saved allOrders st with
  | inl early => early
  | inr (Normal st') => Normal (setLoading false st')
  | inr (Throws _) =>
      Normal (setLoading false (console_warn "Failed to load saved filters or presets" st))
  | inr IllTyped => IllTyped
  end.

(** What the first lines of that [try] block find when they look for the
    active preset: the preset of the stored list that bears the stored
    active name; none (a stored value is missing or empty, or no preset
    of the list bears the name); a stored list that is not JSON; a stored
    value of another shape than a list of presets. *)
Inductive ActiveLookup :=
| ActiveFound (active : Preset)
| ActiveNone
| PresetsUnreadable
| PresetsOtherShape.

Definition lookup_active (st : AppState) : ActiveLookup :=
  let ls := st_localStorage st in
  let savedPresets := getItem ls "order-presets" in
  let activeName := getItem ls "active-order-preset" in
  if truthy savedPresets && truthy activeName then
    match savedPresets, activeName with
    | Some saved, Some an =>
        match JSON_parse saved with
        | None => PresetsUnreadable
        | Some v =>
            match presets_of_json v with
            | None => PresetsOtherShape
            | Some all =>
                match find (fun p => String.eqb (name p) an) all with
                | Some active => ActiveFound active
                | None => ActiveNone
                end
            end
        end
    | _, _ => ActiveNone
    end
  else ActiveNone.

(** The second effect of [HomePage]: the current filters and sort are
    written to the store. *)
Definition persist (st : AppState) : AppState :=
  let ls := st_localStorage st in
  let ls := setItem ls "order-filters" (stringify (json_of_FilterState (st_filters st))) in
  let ls := setItem ls "order-sortKey" (st_sortKey st) in
  let ls := setItem ls "order-sortDirection" (direction_name (st_sortDirection st)) in
  setStorage ls st.

(* ================================================================= *)
(** ** Column headers and rows of [OrderTable] *)

(** The columns of the table: key and label. *)
Definition columns : list (string * string) :=
  [ ("oid", "OID"); ("status", "Status"); ("type", "Type"); ("lock", "Lock");
    ("customer", "Customer"); ("days", "Days Since Order"); ("model", "Model");
    ("designer", "Designer") ].

(** [col.key === "days" ? "daysSinceOrder" : col.key]. *)
Definition sortableKey (colKey : string) : string :=
  if String.eqb colKey "days" then "daysSinceOrder" else colKey.

(** [sortDirection === "asc" ? "desc" : "asc"]. *)
Definition opposite (d : SortDirection) : SortDirection :=
  match d with asc => desc | desc => asc end.

(** The [onClick] of the sort button of the column [colKey]. *)
Definition handleSortClick (colKey : string) (st : AppState) : AppState :=
  if String.eqb (st_sortKey st) (sortableKey colKey)
  then setSortDirection (opposite (st_sortDirection st)) st
  else setSortDirection asc (setSortKey (sortableKey colKey) st).

Inductive Chevron := ChevronRight | ChevronDown.

(** The content of the set [completedStatuses]. *)
Definition completedStatuses : list string := [ "Ready for Packaging"; "QC"; "Delivered" ].

(** The icon beside the order id of a row. *)
Definition arrowIcon (order : Order) : Chevron :=
  if Set_has String.eqb completedStatuses (statusLeft order) then ChevronRight else ChevronDown.

(* ================================================================= *)
(** ** The specification read literally, for comparison with the code *)

(** Stripping a leading [c], as the specification words the day filter:
    only a [c] in first position goes. *)
Definition strip_leading (c : ascii) (s : string) : string :=
  match s with
  | String d r => if Ascii.eqb d c then r else s
  | EmptyString => EmptyString
  end.

(** The threshold of a label as the specification words it: the leading
    ["<"] stripped, the remainder converted to an integer. *)
Definition spec_threshold (label : string) : option Z :=
  parseInt (strip_leading "<" label).

(** A name that is empty or made of white space only. *)
Definition blank (s : string) : Prop :=
  forall c, In c (list_ascii_of_string s) -> is_js_space c = true.

(* ================================================================= *)
(** ** Auxiliary notions of the proofs *)

(** [x] may stand before [y] for the comparator [cmp]. *)
Definition le_by {A : Type} (cmp : A -> A -> Z) (x y : A) : Prop := cmp x y <= 0.

(** Two values of one kind: both numbers, both strings or both undefined. *)
Definition same_kind (x y : JsVal) : Prop :=
  match x, y with
  | VUndefined, VUndefined => True
  | VNumber _, VNumber _ => True
  | VString _, VString _ => True
  | _, _ => False
  end.

(** A text that starts with a character which is neither white space nor
    a closing bracket. *)
Definition head_ok (s : string) : Prop :=
  match s with
  | String c _ => is_json_ws c = false /\ Ascii.eqb c "]" = false /\ Ascii.eqb c "}" = false
  | EmptyString => False
  end.

(** The text of one member of an object. *)
Definition member_text (kv : string * json) : string :=
  (quote (fst kv) ++ ":" ++ stringify (snd kv))%string.

(** With enough fuel, the text of [v] followed by any text parses to [v]
    and leaves that text. *)
Definition parses_back (v : json) : Prop :=
  number_free v = true ->
  forall fuel rest, (json_size v <= fuel)%nat ->
  parse_value fuel (stringify v ++ rest) = Some (v, rest).

(** The preset list in memory is the one written in the store. *)
Definition presets_in_sync (st : AppState) : Prop :=
  getItem (st_localStorage st) "order-presets" =
  Some (stringify (json_of_presets (st_presets st))).

(** The selected option [s] of the field [key] lets [order] pass. *)
Definition option_passes (order : Order) (key : FilterKey) (s : string) : bool :=
  match key with
  | K_days => below (daysSinceOrder order) (threshold s)
  | K_status => String.eqb (statusLeft order) s || String.eqb (statusRight order) s
  | _ => includes [s] (order_get order (key_name key))
  end.

(** The pages [1 .. n] of [data], one after the other. *)
Definition pages_upto (data : list Order) (n : nat) : list (list Order) :=
  map (fun i => paginatedData data (Z.of_nat i)) (seq 1 n).

(* ================================================================= *)
(** * Properties *)

(** ** Strings *)

Lemma existsb_eqb_In (s : string) (l : list string) :
  existsb (String.eqb s) l = true <-> In s l.
Proof.
  rewrite existsb_exists. split.
  - intros [x [Hin Heq]]. apply String.eqb_eq in Heq. now subst.
  - intros Hin. exists s. split; [assumption | apply String.eqb_refl].
Qed.

Lemma includes_string (selected : list string) (s : string) :
  includes selected (VString s) = true <-> In s selected.
Proof. apply existsb_eqb_In. Qed.

Lemma length_zero_nil {A : Type} (l : list A) :
  (List.length l =? 0)%nat = true <-> l = [].
Proof.
  destruct l; simpl; split; intros H; try reflexivity; discriminate.
Qed.

Lemma replace_first_leading (c : ascii) (s : string) :
  replace_first c (String c s) = s.
Proof. simpl. now rewrite Ascii.eqb_refl. Qed.

Lemma replace_first_absent (c : ascii) (s : string) :
  (forall d, In d (list_ascii_of_string s) -> d <> c) -> replace_first c s = s.
Proof.
  induction s as [|d r IH]; simpl; intros H; [reflexivity|].
  destruct (Ascii.eqb d c) eqn:E.
  - apply Ascii.eqb_eq in E. exfalso. apply (H d); [now left | assumption].
  - f_equal. apply IH. intros e He. apply H. now right.
Qed.

(** Where the label starts with ["<"], or holds none, deleting the first
    ["<"] and stripping a leading one are the same thing. *)
Lemma threshold_leading (s : string) :
  threshold (String "<" s) = spec_threshold (String "<" s).
Proof. reflexivity. Qed.

Lemma threshold_absent (s : string) :
  (forall d, In d (list_ascii_of_string s) -> d <> "<"%char) ->
  threshold s = spec_threshold s.
Proof.
  intros H. unfold threshold, spec_threshold.
  rewrite (replace_first_absent _ _ H).
  destruct s as [|d r]; simpl; [reflexivity|].
  destruct (Ascii.eqb d "<") eqn:E; [|reflexivity].
  apply Ascii.eqb_eq in E. exfalso. apply (H d); [now left | assumption].
Qed.

(** ** Filter evaluator *)

Lemma matchDays_spec (value : Z) (selected : list string) :
  matchDays value selected = true <->
  selected = [] \/
  exists label t, In label selected /\ threshold label = Some t /\ value < t.
Proof.
  unfold matchDays. destruct (List.length selected =? 0)%nat eqn:E.
  - apply length_zero_nil in E. tauto.
  - assert (selected <> []) as Hne.
    { intros ->. discriminate. }
    rewrite existsb_exists. split.
    + intros [label [Hin Hb]]. right. unfold below in Hb.
      destruct (threshold label) as [t|] eqn:Ht; [|discriminate].
      exists label, t. repeat split; try assumption. now apply Z.ltb_lt.
    + intros [Hnil | [label [t [Hin [Ht Hlt]]]]]; [contradiction|].
      exists label. split; [assumption|]. unfold below. rewrite Ht. now apply Z.ltb_lt.
Qed.

Lemma entry_matches_plain (o : Order) (key : FilterKey) (selected : list string) (s : string) :
  key <> K_days -> key <> K_status ->
  order_get o (key_name key) = VString s ->
  entry_matches o (key, selected) = true <-> selected = [] \/ In s selected.
Proof.
  intros Hd Hs Hget. unfold entry_matches.
  destruct (List.length selected =? 0)%nat eqn:E.
  - apply length_zero_nil in E. tauto.
  - assert (selected <> []) as Hne by (intros ->; discriminate).
    destruct key; try contradiction; rewrite Hget, includes_string; tauto.
Qed.

Lemma entry_matches_status (o : Order) (selected : list string) :
  entry_matches o (K_status, selected) = true <->
  selected = [] \/ In (statusLeft o) selected \/ In (statusRight o) selected.
Proof.
  unfold entry_matches. destruct (List.length selected =? 0)%nat eqn:E.
  - apply length_zero_nil in E. tauto.
  - assert (selected <> []) as Hne by (intros ->; discriminate).
    rewrite orb_true_iff, !includes_string. tauto.
Qed.

Lemma entry_matches_days (o : Order) (selected : list string) :
  entry_matches o (K_days, selected) = true <->
  selected = [] \/
  exists label t, In label selected /\ threshold label = Some t /\ daysSinceOrder o < t.
Proof.
  unfold entry_matches. destruct (List.length selected =? 0)%nat eqn:E.
  - apply length_zero_nil in E. tauto.
  - apply matchDays_spec.
Qed.

Lemma entry_matches_OID (o : Order) (selected : list string) :
  entry_matches o (K_OID, selected) = true <-> selected = [].
Proof.
  unfold entry_matches. destruct (List.length selected =? 0)%nat eqn:E.
  - apply length_zero_nil in E. tauto.
  - simpl. split; [discriminate | intros ->; discriminate].
Qed.

(** ** Thresholds and double precision *)

Section Rounding.
(** What the engine makes of the integer that [parseInt] reads: the
    nearest double, after the digits beyond the twentieth were replaced by
    zeros if the engine chooses to.  Such a conversion keeps the order and
    leaves the integers from -2^53 to 2^53 as they are; an overflow to
    [Infinity] stands above every number, as any large integer does. *)
Variable round : Z -> Z.
Hypothesis round_monotone : forall x y, x <= y -> round x <= round y.
Hypothesis round_exact : forall x, (- 2 ^ 53 <= x <= 2 ^ 53) -> round x = x.

(** Below 2^53 a number of days compares with a threshold as it compares
    with the rounded threshold. *)
Lemma below_rounded (value : Z) (t : option Z) :
  (- 2 ^ 53 < value < 2 ^ 53) ->
  below value (option_map round t) = below value t.
Proof.
  intros Hv. destruct t as [t|]; [|reflexivity]. cbn [option_map below].
  destruct (Z.ltb_spec value t) as [Hlt | Hge].
  - apply Z.ltb_lt. pose proof (round_monotone (value + 1) t ltac:(lia)) as Hm.
    rewrite (round_exact (value + 1)) in Hm by lia. lia.
  - apply Z.ltb_ge. pose proof (round_monotone t value Hge) as Hm.
    rewrite (round_exact value) in Hm by lia. exact Hm.
Qed.

Lemma matchDays_rounded (value : Z) (filters : list string) :
  (- 2 ^ 53 < value < 2 ^ 53) ->
  (if (List.length filters =? 0)%nat then true
   else existsb (fun f => below value (option_map round (threshold f))) filters)
  = matchDays value filters.
Proof.
  intros Hv. unfold matchDays. destruct (List.length filters =? 0)%nat; [reflexivity|].
  induction filters as [|f l IH]; [reflexivity|].
  cbn [existsb]. now rewrite IH, below_rounded.
Qed.

End Rounding.

(** C1 (as amended): for an order whose number of days lies strictly
    between -2^53 and 2^53, where the numbers of the engine are exact:
    the order passes the filter exactly when it passes
    every field on its own.  An empty selection passes; a status selection
    passes when it holds [statusLeft] or [statusRight]; a selection on
    [type], [lock], [customer], [model] or [designer] passes when it holds
    that field of the order; a day selection passes when [daysSinceOrder]
    is below the threshold of one of its labels, the threshold being what
    [parseInt] reads in the label once its first ["<"] is deleted,
    wherever that one stands, and a label with no number there passing
    nothing; a non-empty [OID] selection passes no order. *)
Theorem matches_iff_every_field (o : Order) (f : FilterState) :
  (- 2 ^ 53 < daysSinceOrder o < 2 ^ 53) ->
  matches o f = true <->
  (match f_OID f with Some l => l = [] | None => True end) /\
  (f_status f = [] \/ In (statusLeft o) (f_status f) \/ In (statusRight o) (f_status f)) /\
  (f_type f = [] \/ In (type o) (f_type f)) /\
  (f_lock f = [] \/ In (lock o) (f_lock f)) /\
  (f_customer f = [] \/ In (customer o) (f_customer f)) /\
  (f_model f = [] \/ In (model o) (f_model f)) /\
  (f_designer f = [] \/ In (designer o) (f_designer f)) /\
  (f_days f = [] \/
   exists label t,
     In label (f_days f) /\ threshold label = Some t /\ daysSinceOrder o < t).
Proof.
  intros _.
  unfold matches, entries. rewrite forallb_app. cbn [forallb].
  rewrite !andb_true_r, !andb_true_iff.
  rewrite entry_matches_status, entry_matches_days.
  rewrite (entry_matches_plain o K_type _ (type o)) by (discriminate || reflexivity).
  rewrite (entry_matches_plain o K_lock _ (lock o)) by (discriminate || reflexivity).
  rewrite (entry_matches_plain o K_customer _ (customer o)) by (discriminate || reflexivity).
  rewrite (entry_matches_plain o K_model _ (model o)) by (discriminate || reflexivity).
  rewrite (entry_matches_plain o K_designer _ (designer o)) by (discriminate || reflexivity).
  destruct (f_OID f) as [l|]; cbn [forallb].
  - rewrite andb_true_r, entry_matches_OID. tauto.
  - assert (true = true <-> True) as -> by tauto. tauto.
Qed.

Lemma matches_iff_every_field_witness :
  let o := mkOrder 1 "QC" "Drying" "Order" "" "Acme" 10 "M1" "Dana" in
  let f := mkFilterState None ["Drying"] [] [] [] [] [] ["<5"; "<15"] in
  (- 2 ^ 53 < daysSinceOrder o < 2 ^ 53) /\
  matches o f = true /\
  exists label t, In label (f_days f) /\ threshold label = Some t /\ daysSinceOrder o < t.
Proof.
  cbv zeta.
  assert (- 2 ^ 53 < 10 < 2 ^ 53) as Hb by (split; reflexivity).
  split; [exact Hb|]. split; [reflexivity|].
  destruct (proj1 (matches_iff_every_field
                     (mkOrder 1 "QC" "Drying" "Order" "" "Acme" 10 "M1" "Dana")
                     (mkFilterState None ["Drying"] [] [] [] [] [] ["<5"; "<15"]) Hb)
                  eq_refl) as [_ [_ [_ [_ [_ [_ [_ [Hd | Hd]]]]]]]].
  - discriminate Hd.
  - exact Hd.
Defined.

(** C1, the claim as stated fails: with the day selection ["1<5"] an
    order of 10 days passes the filter (the code deletes the inner ["<"]
    and reads 15), while the label has no leading ["<"] to strip and, read
    as the claim words it, yields the threshold 1.  The same order passes
    the selection ["<15abc"], whose remainder is not a numeral: the digits
    in front are read and the rest is ignored. *)
Lemma matches_inner_lt_counterexample :
  let o := mkOrder 1 "QC" "QC" "Order" "" "Acme" 10 "M1" "Dana" in
  let f := mkFilterState None [] [] [] [] [] [] ["1<5"] in
  matches o f = true /\
  spec_threshold "1<5" = Some 1 /\
  ~ (exists label t,
       In label (f_days f) /\ spec_threshold label = Some t /\ daysSinceOrder o < t) /\
  matches o (mkFilterState None [] [] [] [] [] [] ["<15abc"]) = true.
Proof.
  cbv zeta. split; [reflexivity|]. split; [reflexivity|]. split; [|reflexivity].
  intros [label [t [Hin [Ht Hlt]]]]. simpl in Hin. destruct Hin as [<- | []].
  vm_compute in Ht. injection Ht as <-. simpl in Hlt. lia.
Qed.

(** ** Pagination *)

Lemma Math_ceil_div_spec (n d : Z) :
  0 < d -> d * (Math_ceil_div n d - 1) < n <= d * Math_ceil_div n d.
Proof.
  intros Hd. unfold Math_ceil_div.
  pose proof (Z.div_mod n d ltac:(lia)) as Hdm.
  pose proof (Z.mod_pos_bound n d Hd) as Hb.
  destruct (n mod d =? 0) eqn:E.
  - apply Z.eqb_eq in E. nia.
  - apply Z.eqb_neq in E. nia.
Qed.

(** C2 (as amended): the page count is the ceiling of [length / 10], the
    least [k] with [length <= 10 * k]: zero for an empty sequence, at
    least one for every other. *)
Theorem pages_is_ceiling (data : list Order) :
  rowsPerPage * (pages data - 1) < Z.of_nat (List.length data) <= rowsPerPage * pages data /\
  (pages data = 0 <-> data = []) /\
  (1 <= pages data <-> data <> []).
Proof.
  pose proof (Math_ceil_div_spec (Z.of_nat (List.length data)) rowsPerPage ltac:(reflexivity)) as H.
  fold (pages data) in H. unfold rowsPerPage in *.
  split; [exact H|].
  destruct data as [|o data]; simpl List.length in *.
  - split; split; intros; try reflexivity; try congruence; lia.
  - split; split; intros; try discriminate; lia.
Qed.

(** C2, the claim as stated fails: an empty sequence has zero pages. *)
Lemma pages_empty_counterexample : pages [] = 0 /\ ~ 1 <= pages [].
Proof. split; [reflexivity | vm_compute; intros H; apply H; reflexivity]. Qed.

Lemma slice_length {A : Type} (l : list A) (start final : Z) :
  0 <= start <= final ->
  Z.of_nat (List.length (slice l start final)) =
  Z.min final (Z.of_nat (List.length l)) - Z.min start (Z.of_nat (List.length l)).
Proof.
  intros H. unfold slice.
  destruct (start <? 0) eqn:E1; [apply Z.ltb_lt in E1; lia|].
  destruct (final <? 0) eqn:E2; [apply Z.ltb_lt in E2; lia|].
  rewrite length_firstn, length_skipn. lia.
Qed.

(** Every page up to the last is full, the last one holds the rest. *)
Lemma paginatedData_length (data : list Order) (page : Z) :
  1 <= page ->
  Z.of_nat (List.length (paginatedData data page)) =
  Z.max 0 (Z.min rowsPerPage (Z.of_nat (List.length data) - (page - 1) * rowsPerPage)).
Proof.
  intros H. unfold paginatedData. rewrite slice_length; unfold rowsPerPage; lia.
Qed.

(** ** Order on strings *)

Lemma string_ltb_irrefl (s : string) : string_ltb s s = false.
Proof.
  induction s as [|c s IH]; simpl; [reflexivity|].
  now rewrite Nat.ltb_irrefl.
Qed.

Lemma nat_of_ascii_inj (x y : ascii) : nat_of_ascii x = nat_of_ascii y -> x = y.
Proof.
  intros H. rewrite <- (ascii_nat_embedding x), <- (ascii_nat_embedding y). now rewrite H.
Qed.

Lemma string_ltb_total (s t : string) :
  string_ltb s t = false -> string_ltb t s = false -> s = t.
Proof.
  revert t. induction s as [|x s IH]; intros [|y t]; simpl; try discriminate; try reflexivity.
  destruct (nat_of_ascii x <? nat_of_ascii y)%nat eqn:E1; [discriminate|].
  destruct (nat_of_ascii y <? nat_of_ascii x)%nat eqn:E2; [discriminate|].
  intros H1 H2. apply Nat.ltb_ge in E1, E2.
  assert (x = y) as -> by (apply nat_of_ascii_inj; lia).
  f_equal. now apply IH.
Qed.

Lemma string_ltb_asym (s t : string) : string_ltb s t = true -> string_ltb t s = false.
Proof.
  revert t. induction s as [|x s IH]; intros [|y t]; simpl; try discriminate; try reflexivity.
  destruct (nat_of_ascii x <? nat_of_ascii y)%nat eqn:E1.
  - intros _. apply Nat.ltb_lt in E1.
    destruct (nat_of_ascii y <? nat_of_ascii x)%nat eqn:E2; [apply Nat.ltb_lt in E2; lia|].
    reflexivity.
  - destruct (nat_of_ascii y <? nat_of_ascii x)%nat eqn:E2; [discriminate|]. apply IH.
Qed.

Lemma string_ltb_trans (s t u : string) :
  string_ltb s t = true -> string_ltb t u = true -> string_ltb s u = true.
Proof.
  revert t u. induction s as [|x s IH]; intros [|y t] [|z u]; simpl; try discriminate; try reflexivity.
  destruct (nat_of_ascii x <? nat_of_ascii y)%nat eqn:E1;
  destruct (nat_of_ascii y <? nat_of_ascii x)%nat eqn:E1';
  destruct (nat_of_ascii y <? nat_of_ascii z)%nat eqn:E2;
  destruct (nat_of_ascii z <? nat_of_ascii y)%nat eqn:E2';
  destruct (nat_of_ascii x <? nat_of_ascii z)%nat eqn:E3;
  destruct (nat_of_ascii z <? nat_of_ascii x)%nat eqn:E3';
  try discriminate; try reflexivity;
  repeat match goal with
         | H : (_ <? _)%nat = true |- _ => apply Nat.ltb_lt in H
         | H : (_ <? _)%nat = false |- _ => apply Nat.ltb_ge in H
         end; try lia.
  apply IH.
Qed.

(** ** The comparator *)

(** The two operands of the comparator are of one kind: which kind is
    decided by the key alone. *)
Lemma sort_value_same_kind (k : string) (a b : Order) :
  same_kind (sort_value k a) (sort_value k b).
Proof.
  unfold sort_value, order_get.
  repeat match goal with
         | |- context [if ?c then _ else _] => destruct c
         end; exact I.
Qed.

Lemma js_lt_asym (x y : JsVal) : js_lt x y = true -> js_lt y x = false.
Proof.
  destruct x, y; simpl; try reflexivity; try discriminate.
  - intros H. apply Z.ltb_lt in H. apply Z.ltb_ge. lia.
  - apply string_ltb_asym.
Qed.

Lemma js_lt_trans (x y z : JsVal) : js_lt x y = true -> js_lt y z = true -> js_lt x z = true.
Proof.
  destruct x, y, z; simpl; try discriminate.
  - intros H1 H2. apply Z.ltb_lt in H1, H2. apply Z.ltb_lt. lia.
  - apply string_ltb_trans.
Qed.

Lemma js_lt_total (x y : JsVal) :
  same_kind x y -> js_lt x y = false -> js_lt y x = false -> x = y.
Proof.
  destruct x, y; simpl; try contradiction; intros _.
  - reflexivity.
  - intros H1 H2. apply Z.ltb_ge in H1, H2. f_equal. lia.
  - intros H1 H2. f_equal. now apply string_ltb_total.
Qed.

Lemma js_lt_irrefl (x : JsVal) : js_lt x x = false.
Proof.
  destruct x; simpl; [reflexivity | apply Z.ltb_irrefl | apply string_ltb_irrefl].
Qed.

(** The comparator answers 0 exactly on equal sort values. *)
Lemma compareFn_zero (k : string) (d : SortDirection) (a b : Order) :
  compareFn k d a b = 0 <-> sort_value k a = sort_value k b.
Proof.
  unfold compareFn. split.
  - destruct (js_lt (sort_value k a) (sort_value k b)) eqn:E1.
    { destruct d; discriminate. }
    destruct (js_lt (sort_value k b) (sort_value k a)) eqn:E2.
    { destruct d; discriminate. }
    intros _. apply js_lt_total; auto using sort_value_same_kind.
  - intros ->. now rewrite js_lt_irrefl.
Qed.

Lemma compareFn_antisym (k : string) (d : SortDirection) (a b : Order) :
  compareFn k d b a = - compareFn k d a b.
Proof.
  unfold compareFn.
  destruct (js_lt (sort_value k a) (sort_value k b)) eqn:E1.
  - rewrite (js_lt_asym _ _ E1). now destruct d.
  - destruct (js_lt (sort_value k b) (sort_value k a)); now destruct d.
Qed.

(** In ascending direction [a] may stand before [b] when [b]'s value is
    not below [a]'s; in descending direction the other way round. *)
Lemma compareFn_le (k : string) (d : SortDirection) (a b : Order) :
  compareFn k d a b <= 0 <->
  match d with
  | asc => js_lt (sort_value k b) (sort_value k a) = false
  | desc => js_lt (sort_value k a) (sort_value k b) = false
  end.
Proof.
  unfold compareFn.
  destruct (js_lt (sort_value k a) (sort_value k b)) eqn:E1.
  - rewrite (js_lt_asym _ _ E1). destruct d; split; intros H; try reflexivity; try lia; discriminate.
  - destruct (js_lt (sort_value k b) (sort_value k a)) eqn:E2;
      destruct d; split; intros H; try reflexivity; try lia; discriminate.
Qed.

Lemma js_le_trans (x y z : JsVal) :
  same_kind x y -> same_kind y z ->
  js_lt y x = false -> js_lt z y = false -> js_lt z x = false.
Proof.
  intros K1 K2 H1 H2.
  destruct (js_lt z x) eqn:E; [|reflexivity].
  destruct (js_lt x y) eqn:E1.
  - pose proof (js_lt_trans _ _ _ E E1) as H. congruence.
  - assert (x = y) as -> by (apply js_lt_total; assumption). congruence.
Qed.

Lemma compareFn_trans (k : string) (d : SortDirection) (a b c : Order) :
  compareFn k d a b <= 0 -> compareFn k d b c <= 0 -> compareFn k d a c <= 0.
Proof.
  rewrite !compareFn_le. destruct d; intros H1 H2.
  - eapply js_le_trans; eauto using sort_value_same_kind.
  - eapply (js_le_trans (sort_value k c) (sort_value k b) (sort_value k a));
      eauto using sort_value_same_kind.
Qed.

Lemma compareFn_total (k : string) (d : SortDirection) (a b : Order) :
  compareFn k d a b <= 0 \/ compareFn k d b a <= 0.
Proof. rewrite (compareFn_antisym k d a b). lia. Qed.

(** ** Sorting with a consistent comparator *)

Section SortFacts.
Context {A : Type}.
Variable cmp : A -> A -> Z.
Hypothesis cmp_antisym : forall x y, cmp y x = - cmp x y.
Hypothesis cmp_trans : forall x y z, cmp x y <= 0 -> cmp y z <= 0 -> cmp x z <= 0.

Lemma insert_sorted_perm (x : A) (l : list A) : Permutation (insert_sorted cmp x l) (x :: l).
Proof.
  induction l as [|y l IH]; simpl; [apply Permutation_refl|].
  destruct (cmp x y <=? 0); [apply Permutation_refl|].
  eapply Permutation_trans; [apply perm_skip, IH | apply perm_swap].
Qed.

Lemma sort_perm (l : list A) : Permutation (sort cmp l) l.
Proof.
  induction l as [|x l IH]; simpl; [apply Permutation_refl|].
  eapply Permutation_trans; [apply insert_sorted_perm | now apply perm_skip].
Qed.

Lemma insert_sorted_strongly (x : A) (l : list A) :
  StronglySorted (le_by cmp) l -> StronglySorted (le_by cmp) (insert_sorted cmp x l).
Proof.
  induction l as [|y l IH]; simpl; intros Hs.
  - constructor; [constructor | constructor].
  - inversion Hs as [|? ? Hl Hy]; subst.
    destruct (cmp x y <=? 0) eqn:E.
    + apply Z.leb_le in E. constructor; [assumption|].
      constructor; [exact E|].
      rewrite Forall_forall in *. intros z Hz. eapply cmp_trans; [exact E | now apply Hy].
    + apply Z.leb_gt in E. constructor; [now apply IH|].
      rewrite Forall_forall in *. intros z Hz.
      apply (Permutation_in _ (insert_sorted_perm x l)) in Hz.
      destruct Hz as [<- | Hz]; [|now apply Hy].
      unfold le_by. rewrite (cmp_antisym x y). lia.
Qed.

Lemma sort_strongly_sorted (l : list A) : StronglySorted (le_by cmp) (sort cmp l).
Proof.
  induction l as [|x l IH]; simpl; [constructor | now apply insert_sorted_strongly].
Qed.

(** Insertion does not move [x] past an element of its own class. *)
Lemma filter_insert_sorted (P : A -> bool) (x : A) (l : list A) :
  (forall y, P x = true -> P y = true -> cmp x y <= 0) ->
  filter P (insert_sorted cmp x l) = filter P (x :: l).
Proof.
  intros HP. induction l as [|y l IH]; [reflexivity|].
  cbn [insert_sorted]. destruct (cmp x y <=? 0) eqn:E; [reflexivity|].
  apply Z.leb_gt in E. cbn [filter] in *. rewrite IH.
  destruct (P x) eqn:Px, (P y) eqn:Py; try reflexivity.
  specialize (HP y eq_refl Py). lia.
Qed.

Lemma filter_sort (P : A -> bool) (l : list A) :
  (forall x y, P x = true -> P y = true -> cmp x y <= 0) ->
  filter P (sort cmp l) = filter P l.
Proof.
  intros HP. induction l as [|x l IH]; [reflexivity|].
  cbn [sort]. rewrite filter_insert_sorted by (intros y; apply HP).
  cbn [filter]. now rewrite IH.
Qed.

(** Stability: the elements that compare equal to [z] stand in the sorted
    array as they stood in the input. *)
Lemma sort_stable (z : A) (l : list A) :
  filter (fun y => cmp z y =? 0) (sort cmp l) = filter (fun y => cmp z y =? 0) l.
Proof.
  apply filter_sort. intros x y Hx Hy.
  apply Z.eqb_eq in Hx, Hy.
  apply (cmp_trans x z y); [rewrite (cmp_antisym z x) | ]; lia.
Qed.

Lemma filter_head_in (P : A -> bool) (l1 l2 : list A) (a : A) :
  filter P l1 = a :: l2 -> In a l1.
Proof.
  intros H. assert (In a (filter P l1)) as Hin by (rewrite H; now left).
  apply filter_In in Hin. tauto.
Qed.

(** The sorted, stable arrangement is unique: two sorted lists whose
    classes of equal elements read the same are the same list. *)
Lemma sorted_stable_unique (l1 l2 : list A) :
  StronglySorted (le_by cmp) l1 -> StronglySorted (le_by cmp) l2 ->
  (forall z, filter (fun y => cmp z y =? 0) l1 = filter (fun y => cmp z y =? 0) l2) ->
  l1 = l2.
Proof.
  assert (Hrefl : forall a, cmp a a = 0).
  { intros a. pose proof (cmp_antisym a a). lia. }
  revert l2. induction l1 as [|a l1 IH]; intros l2 S1 S2 Hcls.
  - destruct l2 as [|b l2]; [reflexivity|].
    specialize (Hcls b). cbn [filter] in Hcls. rewrite Hrefl in Hcls. discriminate.
  - destruct l2 as [|b l2].
    { specialize (Hcls a). cbn [filter] in Hcls. rewrite Hrefl in Hcls. discriminate. }
    inversion S1 as [|? ? S1' Ha]; subst. inversion S2 as [|? ? S2' Hb]; subst.
    rewrite Forall_forall in Ha, Hb.
    assert (a = b) as <-.
    { pose proof (Hcls a) as Hca. cbn [filter] in Hca. rewrite Hrefl in Hca. cbn in Hca.
      destruct (cmp a b =? 0) eqn:Eab; [now injection Hca|].
      pose proof (Hcls b) as Hcb. cbn [filter] in Hcb. rewrite Hrefl in Hcb. cbn in Hcb.
      assert ((cmp b a =? 0) = false) as Eba.
      { apply Z.eqb_neq. apply Z.eqb_neq in Eab. rewrite (cmp_antisym a b). lia. }
      rewrite Eba in Hcb.
      symmetry in Hca. apply filter_head_in in Hca. apply Hb in Hca.
      apply filter_head_in in Hcb. apply Ha in Hcb.
      unfold le_by in *. apply Z.eqb_neq in Eab. rewrite (cmp_antisym a b) in Hca. lia. }
    f_equal. apply IH; try assumption.
    intros z. specialize (Hcls z). cbn [filter] in Hcls.
    destruct (cmp z a =? 0); [now injection Hcls | assumption].
Qed.

(** Whatever stable sort the engine runs, it returns what [sort] returns. *)
Lemma stable_sort_unique (l out : list A) :
  StronglySorted (le_by cmp) out ->
  (forall z, filter (fun y => cmp z y =? 0) out = filter (fun y => cmp z y =? 0) l) ->
  out = sort cmp l.
Proof.
  intros Hs Hst. apply sorted_stable_unique; [assumption | apply sort_strongly_sorted |].
  intros z. now rewrite Hst, sort_stable.
Qed.

End SortFacts.

(** ** Status priority *)

Lemma indexOf_from_absent (l : list string) (i : Z) (x : string) :
  ~ In x l -> indexOf_from i l x = -1.
Proof.
  revert i. induction l as [|y l IH]; intros i Hn; simpl; [reflexivity|].
  destruct (String.eqb y x) eqn:E.
  - apply String.eqb_eq in E. exfalso. apply Hn. now left.
  - apply IH. intros H. apply Hn. now right.
Qed.

Lemma indexOf_from_present (l : list string) (i : Z) (x : string) :
  In x l ->
  i <= indexOf_from i l x < i + Z.of_nat (List.length l) /\
  nth_error l (Z.to_nat (indexOf_from i l x - i)) = Some x.
Proof.
  revert i. induction l as [|y l IH]; intros i Hin; [contradiction|].
  cbn [indexOf_from List.length]. destruct (String.eqb y x) eqn:E.
  - apply String.eqb_eq in E. subst. rewrite Z.sub_diag. split; [lia | reflexivity].
  - destruct Hin as [-> | Hin]; [rewrite String.eqb_refl in E; discriminate|].
    destruct (IH (i + 1) Hin) as [Hb Hn]. split; [lia|].
    replace (Z.to_nat (indexOf_from (i + 1) l x - i))
      with (S (Z.to_nat (indexOf_from (i + 1) l x - (i + 1)))) by lia.
    exact Hn.
Qed.

Lemma three_way (x y : Z) :
  ((if x <? y then -1 else if y <? x then 1 else 0) = -1 <-> x < y) /\
  ((if x <? y then -1 else if y <? x then 1 else 0) = 0 <-> x = y) /\
  ((if x <? y then -1 else if y <? x then 1 else 0) = 1 <-> y < x).
Proof.
  destruct (Z.ltb_spec x y), (Z.ltb_spec y x);
    repeat split; intros; try lia; try discriminate; try reflexivity.
Qed.

Lemma sort_value_status (a : Order) :
  sort_value "status" a = VNumber (indexOf statusPriority (statusLeft a)).
Proof. reflexivity. Qed.

Lemma compareFn_status_asc (a b : Order) :
  compareFn "status" asc a b =
  let ia := indexOf statusPriority (statusLeft a) in
  let ib := indexOf statusPriority (statusLeft b) in
  if ia <? ib then -1 else if ib <? ia then 1 else 0.
Proof. reflexivity. Qed.

Lemma StronglySorted_after {A : Type} (R : A -> A -> Prop) (l1 l2 : list A) (x : A) :
  StronglySorted R (l1 ++ x :: l2) -> Forall (R x) l2.
Proof.
  induction l1 as [|y l1 IH]; cbn [app]; intros H; inversion H; subst; auto.
Qed.

Lemma sorted_by_status_index (l : list Order) :
  StronglySorted
    (fun x y => indexOf statusPriority (statusLeft x) <= indexOf statusPriority (statusLeft y))
    (sort (compareFn "status" asc) l).
Proof.
  eapply StronglySorted_ind with
    (P := StronglySorted (fun x y => indexOf statusPriority (statusLeft x)
                                     <= indexOf statusPriority (statusLeft y))).
  - constructor.
  - intros x l' _ IH Hall. constructor; [exact IH|].
    eapply Forall_impl; [|exact Hall]. intros y Hy. cbv beta in Hy.
    apply (proj1 (compareFn_le "status" asc x y)) in Hy. rewrite !sort_value_status in Hy.
    cbn [js_lt] in Hy. apply Z.ltb_ge in Hy. exact Hy.
  - apply sort_strongly_sorted.
    + apply compareFn_antisym.
    + apply compareFn_trans.
Qed.

(** C4: under the sort key [status], ascending, the comparator orders two
    orders by the index of their [statusLeft] in the priority list, which
    is "Open Order", "Printing", "Drying", "QC", "Ready for Packaging",
    "Delivered" in this order: these six have the indices 0 to 5, every
    other status has -1 and so compares before every listed status, and
    "Open Order" compares before "Delivered".  The sorted sequence holds
    the filtered orders, its indices never decrease, and no order with an
    unlisted status stands after one with a listed status. *)
Theorem compare_status_by_priority_index (a b : Order) :
  let priority :=
    ["Open Order"; "Printing"; "Drying"; "QC"; "Ready for Packaging"; "Delivered"] in
  let ia := indexOf priority (statusLeft a) in
  let ib := indexOf priority (statusLeft b) in
  statusPriority = priority /\
  (compareFn "status" asc a b = -1 <-> ia < ib) /\
  (compareFn "status" asc a b = 0 <-> ia = ib) /\
  (compareFn "status" asc a b = 1 <-> ib < ia) /\
  (statusLeft a = "Open Order" -> ia = 0) /\
  (statusLeft a = "Printing" -> ia = 1) /\
  (statusLeft a = "Drying" -> ia = 2) /\
  (statusLeft a = "QC" -> ia = 3) /\
  (statusLeft a = "Ready for Packaging" -> ia = 4) /\
  (statusLeft a = "Delivered" -> ia = 5) /\
  (In (statusLeft a) priority ->
     0 <= ia <= 5 /\ nth_error priority (Z.to_nat ia) = Some (statusLeft a)) /\
  (~ In (statusLeft a) priority -> ia = -1) /\
  (~ In (statusLeft a) priority -> In (statusLeft b) priority ->
     compareFn "status" asc a b = -1 /\ compareFn "status" asc b a = 1) /\
  (statusLeft a = "Open Order" -> statusLeft b = "Delivered" ->
     compareFn "status" asc a b = -1 /\ compareFn "status" asc b a = 1) /\
  (forall allOrders f,
     let out := sortedAndFilteredOrders allOrders f "status" asc in
     Permutation out (filteredOrders allOrders f) /\
     StronglySorted
       (fun x y => indexOf priority (statusLeft x) <= indexOf priority (statusLeft y)) out /\
     (forall before x after,
        out = before ++ x :: after -> In (statusLeft x) priority ->
        forall y, In y after -> In (statusLeft y) priority)).
Proof.
  cbv zeta. fold statusPriority.
  assert (Hpres : forall o, In (statusLeft o) statusPriority ->
            0 <= indexOf statusPriority (statusLeft o) <= 5 /\
            nth_error statusPriority (Z.to_nat (indexOf statusPriority (statusLeft o)))
              = Some (statusLeft o)).
  { intros o Hin. destruct (indexOf_from_present statusPriority 0 _ Hin) as [Hb Hn].
    unfold indexOf. rewrite Z.sub_0_r in Hn. cbn [statusPriority List.length] in Hb.
    split; [lia | exact Hn]. }
  assert (Habs : forall o, ~ In (statusLeft o) statusPriority ->
            indexOf statusPriority (statusLeft o) = -1).
  { intros o Hn. now apply indexOf_from_absent. }
  rewrite !compareFn_status_asc. cbv zeta.
  pose proof (three_way (indexOf statusPriority (statusLeft a))
                        (indexOf statusPriority (statusLeft b))) as [T1 [T2 T3]].
  split; [reflexivity|].
  split; [exact T1|]. split; [exact T2|]. split; [exact T3|].
  split; [intros ->; reflexivity|]. split; [intros ->; reflexivity|].
  split; [intros ->; reflexivity|]. split; [intros ->; reflexivity|].
  split; [intros ->; reflexivity|]. split; [intros ->; reflexivity|].
  split; [apply Hpres|]. split; [apply Habs|]. split; [|split].
  - intros Hna Hb. rewrite (Habs a Hna). destruct (Hpres b Hb) as [Hr _].
    assert (E : (indexOf statusPriority (statusLeft b) <? -1) = false) by (apply Z.ltb_ge; lia).
    assert (E' : (-1 <? indexOf statusPriority (statusLeft b)) = true) by (apply Z.ltb_lt; lia).
    now rewrite E, E'.
  - intros -> ->. split; reflexivity.
  - intros allOrders f. unfold sortedAndFilteredOrders.
    split; [apply sort_perm|]. split; [apply sorted_by_status_index|].
    intros before x after E Hx y Hy.
    pose proof (sorted_by_status_index (filteredOrders allOrders f)) as Hs.
    rewrite E in Hs. apply StronglySorted_after in Hs.
    rewrite Forall_forall in Hs. specialize (Hs y Hy). cbv beta in Hs.
    destruct (in_dec string_dec (statusLeft y) statusPriority) as [Hin | Hout]; [exact Hin|].
    rewrite (Habs y Hout) in Hs. destruct (Hpres x Hx) as [Hr _]. lia.
Qed.

(** ** Query pipeline *)

Lemma filter_filter {A : Type} (P Q : A -> bool) (l : list A) :
  filter P (filter Q l) = filter (fun y => Q y && P y) l.
Proof.
  induction l as [|x l IH]; [reflexivity|].
  cbn [filter]. destruct (Q x); cbn [filter andb]; [destruct (P x)|]; now rewrite IH.
Qed.

(** Two elements met in this order in a filtered list are met in this
    order in the list. *)
Lemma filter_keeps_order {A : Type} (P : A -> bool) (l p1 p2 p3 : list A) (a b : A) :
  filter P l = p1 ++ a :: p2 ++ b :: p3 ->
  exists m1 m2 m3, l = m1 ++ a :: m2 ++ b :: m3.
Proof.
  revert p1. induction l as [|x l IH]; intros p1 H.
  - destruct p1; discriminate.
  - cbn [filter] in H. destruct (P x) eqn:Px.
    + destruct p1 as [|y p1].
      * cbn [app] in H. injection H as -> H.
        assert (In b (filter P l)) as Hb by (rewrite H; apply in_or_app; right; now left).
        apply filter_In in Hb. destruct Hb as [Hb _].
        apply in_split in Hb. destruct Hb as [m2 [m3 ->]].
        exists [], m2, m3. reflexivity.
      * cbn [app] in H. injection H as -> H.
        destruct (IH p1 H) as [m1 [m2 [m3 ->]]].
        exists (y :: m1), m2, m3. reflexivity.
    + destruct (IH p1 H) as [m1 [m2 [m3 ->]]].
      exists (x :: m1), m2, m3. reflexivity.
Qed.

Lemma filter_app_two {A : Type} (P : A -> bool) (l1 l2 l3 : list A) (a b : A) :
  P a = true -> P b = true ->
  filter P (l1 ++ a :: l2 ++ b :: l3) =
  filter P l1 ++ a :: filter P l2 ++ b :: filter P l3.
Proof.
  intros Pa Pb. rewrite filter_app. cbn [filter]. rewrite Pa.
  rewrite filter_app. cbn [filter]. now rewrite Pb.
Qed.

(** C7: the pipeline is a function of its four inputs, so two runs on
    the same inputs give the same sequence, and its output is the one
    stable sorted arrangement of the orders that pass the filter: it is a
    permutation of them, sorted by the comparator; the orders that
    compare equal to a given one stand in the output as they stand in the
    input, so of two orders with equal sort keys the one met first in the
    output is met first in the input; and any sorted arrangement with that
    property is this output. *)
Theorem pipeline_deterministic_and_stable
    (allOrders : list Order) (f : FilterState) (k : string) (d : SortDirection) :
  let out := sortedAndFilteredOrders allOrders f k d in
  (forall allOrders' f' k' d',
     allOrders' = allOrders -> f' = f -> k' = k -> d' = d ->
     sortedAndFilteredOrders allOrders' f' k' d' = out) /\
  Permutation out (filteredOrders allOrders f) /\
  StronglySorted (le_by (compareFn k d)) out /\
  (forall z,
     filter (fun y => compareFn k d z y =? 0) out =
     filter (fun y => matches y f && (compareFn k d z y =? 0)) allOrders) /\
  (forall a b l1 l2 l3,
     out = l1 ++ a :: l2 ++ b :: l3 -> compareFn k d a b = 0 ->
     exists m1 m2 m3, allOrders = m1 ++ a :: m2 ++ b :: m3) /\
  (forall out',
     StronglySorted (le_by (compareFn k d)) out' ->
     (forall z,
        filter (fun y => compareFn k d z y =? 0) out' =
        filter (fun y => compareFn k d z y =? 0) (filteredOrders allOrders f)) ->
     out' = out).
Proof.
  cbv zeta. unfold sortedAndFilteredOrders.
  pose proof (compareFn_antisym k d) as Ha.
  pose proof (compareFn_trans k d) as Ht.
  assert (Hst : forall z,
            filter (fun y => compareFn k d z y =? 0)
                   (sort (compareFn k d) (filteredOrders allOrders f)) =
            filter (fun y => matches y f && (compareFn k d z y =? 0)) allOrders).
  { intros z. rewrite (sort_stable _ Ha Ht). unfold filteredOrders. apply filter_filter. }
  split; [intros ? ? ? ? -> -> -> ->; reflexivity|].
  split; [apply sort_perm|].
  split; [apply (sort_strongly_sorted _ Ha Ht)|].
  split; [exact Hst|].
  split.
  - intros a b l1 l2 l3 Hout Hab.
    pose proof (Hst a) as H. rewrite Hout in H.
    rewrite filter_app_two in H.
    + symmetry in H. eapply filter_keeps_order. exact H.
    + apply Z.eqb_eq. pose proof (Ha a a). lia.
    + now apply Z.eqb_eq.
  - intros out' Hs Hc. now apply (stable_sort_unique _ Ha Ht).
Qed.

(** ** JSON text: what is written is read back *)

Local Close Scope Z_scope.

Lemma string_app_assoc (a b c : string) : ((a ++ b) ++ c = a ++ (b ++ c))%string.
Proof. induction a as [|x a IH]; simpl; [reflexivity | now rewrite IH]. Qed.

Lemma string_length_app (a b : string) :
  String.length (a ++ b) = (String.length a + String.length b)%nat.
Proof. induction a as [|x a IH]; simpl; [reflexivity | now rewrite IH]. Qed.

Lemma json_nested_ind (P : json -> Prop) :
  P JNull -> (forall b, P (JBool b)) -> (forall n, P (JNumber n)) -> (forall s, P (JString s)) ->
  (forall items, Forall P items -> P (JArray items)) ->
  (forall members, Forall (fun kv => P (snd kv)) members -> P (JObject members)) ->
  P JOutside ->
  forall v, P v.
Proof.
  intros Hnull Hbool Hnum Hstr Harr Hobj Hout.
  fix IH 1. intros [ | b | n | s | items | members | ].
  - exact Hnull.
  - apply Hbool.
  - apply Hnum.
  - apply Hstr.
  - apply Harr. induction items as [|x items IHl]; constructor; [apply IH | exact IHl].
  - apply Hobj. induction members as [|[k x] members IHl]; constructor; [apply IH | exact IHl].
  - exact Hout.
Qed.

Lemma parse_string_body_quote_char (c : ascii) (s : string) :
  parse_string_body (quote_char c ++ s) = cons_char c (parse_string_body s).
Proof.
  destruct c as [[] [] [] [] [] [] [] []]; reflexivity.
Qed.

Lemma parse_string_body_quote_chars (s rest : string) :
  parse_string_body (quote_chars s ++ String dquote rest) = Some (Some s, rest).
Proof.
  induction s as [|c s IH].
  - reflexivity.
  - cbn [quote_chars]. rewrite string_app_assoc, parse_string_body_quote_char, IH. reflexivity.
Qed.

Lemma parse_elems_S (f : nat) (s : string) :
  parse_elems (S f) s =
  match parse_value f s with
  | None => None
  | Some (v, r) =>
      match skip_ws r with
      | String c r' =>
          if Ascii.eqb c "," then with_rest (cons v) (parse_elems f r')
          else if Ascii.eqb c "]" then Some ([v], r')
          else None
      | EmptyString => None
      end
  end.
Proof. reflexivity. Qed.

Lemma parse_members_quoted (f : nat) (k s : string) :
  parse_members (S f) (quote k ++ String ":" s) =
  match parse_value f s with
  | Some (v, r3) =>
      match skip_ws r3 with
      | String c3 r4 =>
          if Ascii.eqb c3 "," then with_rest (add_member (Some k) v) (parse_members f r4)
          else if Ascii.eqb c3 "}" then Some (Some [(k, v)], r4)
          else None
      | EmptyString => None
      end
  | None => None
  end.
Proof.
  unfold quote. cbn [append]. rewrite string_app_assoc. cbn [append].
  change (parse_members (S f) (String dquote ?x)) with
    (match parse_string_body x with
            | Some (k, r1) =>
                match skip_ws r1 with
                | String c1 r2 =>
                    if Ascii.eqb c1 ":" then
                      match parse_value f r2 with
                      | Some (v, r3) =>
                          match skip_ws r3 with
                          | String c3 r4 =>
                              if Ascii.eqb c3 "," then
                                with_rest (add_member k v) (parse_members f r4)
                              else if Ascii.eqb c3 "}" then Some (add_member k v (Some []), r4)
                              else None
                          | EmptyString => None
                          end
                      | None => None
                      end
                    else None
                | EmptyString => None
                end
            | None => None
            end).
  rewrite parse_string_body_quote_chars. reflexivity.
Qed.

Lemma stringify_head (v : json) (rest : string) :
  number_free v = true -> head_ok (stringify v ++ rest).
Proof.
  destruct v as [ | [] | n | s | items | members | ]; simpl; intros H;
    try discriminate; repeat split; reflexivity.
Qed.

Lemma skip_ws_head_ok (s : string) : head_ok s -> skip_ws s = s.
Proof.
  destruct s as [|c s]; [contradiction|]. intros [H _]. simpl. now rewrite H.
Qed.

Lemma parse_value_array (f : nat) (s : string) :
  parse_value (S f) (String "[" s) =
  match skip_ws s with
  | String c' r' =>
      if Ascii.eqb c' "]" then Some (JArray [], r') else with_rest JArray (parse_elems f s)
  | EmptyString => None
  end.
Proof. reflexivity. Qed.

Lemma parse_value_object (f : nat) (s : string) :
  parse_value (S f) (String "{" s) =
  match skip_ws s with
  | String c' r' =>
      if Ascii.eqb c' "}" then Some (JObject [], r') else with_rest object_value (parse_members f s)
  | EmptyString => None
  end.
Proof. reflexivity. Qed.

Lemma parse_value_string (f : nat) (s : string) :
  parse_value (S f) (String dquote s) = with_rest string_value (parse_string_body s).
Proof. reflexivity. Qed.

Lemma parse_value_array_nonempty (f : nat) (s : string) :
  head_ok s ->
  parse_value (S f) (String "[" s) = with_rest JArray (parse_elems f s).
Proof.
  intros H. rewrite parse_value_array, (skip_ws_head_ok _ H).
  destruct s as [|c s]; [contradiction|]. destruct H as [_ [H _]]. now rewrite H.
Qed.

Lemma parse_value_object_nonempty (f : nat) (k s : string) :
  parse_value (S f) (String "{" (quote k ++ s)) =
  with_rest object_value (parse_members f (quote k ++ s)).
Proof. reflexivity. Qed.

Lemma concat_cons (sep x : string) (l : list string) :
  String.concat sep (x :: l) =
  match l with [] => x | _ :: _ => (x ++ sep ++ String.concat sep l)%string end.
Proof. reflexivity. Qed.

Lemma list_sum_cons (a : nat) (l : list nat) : list_sum (a :: l) = (a + list_sum l)%nat.
Proof. reflexivity. Qed.

Lemma parse_elems_stringify (items : list json) :
  Forall parses_back items -> forallb number_free items = true -> items <> [] ->
  forall fuel rest,
    (list_sum (map (fun x => S (json_size x)) items) <= fuel)%nat ->
    parse_elems fuel (String.concat "," (map stringify items) ++ String "]" rest)
    = Some (items, rest).
Proof.
  induction items as [|x l IH]; intros HP Hnf Hne fuel rest Hfuel; [contradiction|].
  inversion HP as [|? ? Px Pl]; subst.
  cbn [forallb] in Hnf. apply andb_true_iff in Hnf. destruct Hnf as [Hx Hl].
  cbn [map] in Hfuel. rewrite list_sum_cons in Hfuel.
  destruct fuel as [|f]; [lia|]. rewrite parse_elems_S.
  cbn [map]. rewrite concat_cons.
  destruct l as [|y l'].
  - rewrite (Px Hx f _ ltac:(lia)). reflexivity.
  - cbn [map]. rewrite !string_app_assoc.
    rewrite (Px Hx f _ ltac:(lia)).
    change (skip_ws ("," ++ ?s)) with (String "," s).
    cbn [append].
    change (stringify y :: map stringify l') with (map stringify (y :: l')).
    change (Ascii.eqb "," ",") with true. cbv iota.
    rewrite (IH Pl Hl ltac:(discriminate) f rest ltac:(lia)).
    reflexivity.
Qed.

Lemma parse_members_stringify (members : list (string * json)) :
  Forall (fun kv => parses_back (snd kv)) members ->
  forallb (fun kv => number_free (snd kv)) members = true -> members <> [] ->
  forall fuel rest,
    (list_sum (map (fun kv => S (json_size (snd kv))) members) <= fuel)%nat ->
    parse_members fuel (String.concat "," (map member_text members) ++ String "}" rest)
    = Some (Some members, rest).
Proof.
  induction members as [|[k x] l IH]; intros HP Hnf Hne fuel rest Hfuel; [contradiction|].
  inversion HP as [|? ? Px Pl]; subst. cbn [snd] in Px.
  cbn [forallb snd] in Hnf. apply andb_true_iff in Hnf. destruct Hnf as [Hx Hl].
  cbn [map snd] in Hfuel. rewrite list_sum_cons in Hfuel.
  destruct fuel as [|f]; [lia|].
  cbn [map]. rewrite concat_cons.
  change (member_text (k, x)) with (quote k ++ ":" ++ stringify x)%string.
  destruct l as [|[k' y] l'].
  - cbn [map]. rewrite !string_app_assoc. cbn [append].
    rewrite parse_members_quoted, (Px Hx f _ ltac:(lia)). reflexivity.
  - cbn [map]. rewrite !string_app_assoc. cbn [append].
    rewrite parse_members_quoted, (Px Hx f _ ltac:(lia)).
    change (member_text (k', y) :: map member_text l') with (map member_text ((k', y) :: l')).
    change (skip_ws (String "," ?s)) with (String "," s).
    change (Ascii.eqb "," ",") with true. cbv iota.
    rewrite (IH Pl Hl ltac:(discriminate) f rest ltac:(lia)).
    reflexivity.
Qed.

Lemma stringify_parses_back (v : json) : parses_back v.
Proof.
  induction v as [ | b | n | s | items IH | members IH | ] using json_nested_ind;
    intros Hnf fuel rest Hfuel; cbn [json_size] in Hfuel;
    (destruct fuel as [|f]; [lia|]); [ | | | | | | discriminate].
  - reflexivity.
  - destruct b; reflexivity.
  - discriminate.
  - cbn [stringify]. unfold quote. cbn [append]. rewrite string_app_assoc. cbn [append].
    rewrite parse_value_string, parse_string_body_quote_chars. reflexivity.
  - cbn [stringify number_free] in *. rewrite !string_app_assoc. cbn [append].
    destruct items as [|x l]; [reflexivity|].
    rewrite parse_value_array_nonempty.
    + rewrite (parse_elems_stringify _ IH Hnf ltac:(discriminate) f rest ltac:(lia)).
      reflexivity.
    + cbn [map]. rewrite concat_cons.
      cbn [forallb] in Hnf. apply andb_true_iff in Hnf. destruct Hnf as [Hx _].
      destruct (map stringify l); [|rewrite string_app_assoc]; now apply stringify_head.
  - cbn [number_free] in Hnf. destruct members as [|[k x] l]; [reflexivity|].
    change (stringify (JObject ((k, x) :: l)))
      with ("{" ++ String.concat "," (map member_text ((k, x) :: l)) ++ "}")%string.
    rewrite !string_app_assoc. cbn [append].
    assert (exists s, (String.concat "," (map member_text ((k, x) :: l)) ++ String "}" rest
                       = quote k ++ s)%string) as [s E].
    { cbn [map]. rewrite concat_cons.
      change (member_text (k, x)) with (quote k ++ ":" ++ stringify x)%string.
      destruct (map member_text l); rewrite !string_app_assoc; eexists; reflexivity. }
    rewrite E, parse_value_object_nonempty, <- E.
    rewrite (parse_members_stringify _ IH Hnf ltac:(discriminate) f rest ltac:(lia)).
    reflexivity.
Qed.

Lemma json_size_bound (v : json) :
  (json_size v <= 2 * String.length (stringify v) + 1)%nat.
Proof.
  induction v as [ | b | n | s | items IH | members IH | ] using json_nested_ind;
    cbn [json_size stringify]; try lia.
  - rewrite !string_length_app. cbn [String.length].
    enough (list_sum (map (fun x => S (json_size x)) items)
            <= 2 * String.length (String.concat "," (map stringify items)) + 2)%nat by lia.
    induction items as [|x l IHl]; [cbn; lia|].
    inversion IH as [|? ? Hx Hl]; subst. specialize (IHl Hl).
    cbn [map]. rewrite list_sum_cons, concat_cons.
    destruct l as [|y l'].
    + cbn [map list_sum fold_right]. lia.
    + cbn [map] in *. rewrite !string_length_app. cbn [String.length]. lia.
  - rewrite !string_length_app. cbn [String.length].
    enough (list_sum (map (fun kv => S (json_size (snd kv))) members)
            <= 2 * String.length (String.concat "," (map member_text members)) + 2)%nat by
      (unfold member_text in *; lia).
    induction members as [|[k x] l IHl]; [cbn; lia|].
    inversion IH as [|? ? Hx Hl]; subst. specialize (IHl Hl). cbn [snd] in Hx.
    cbn [map]. rewrite list_sum_cons, concat_cons.
    change (member_text (k, x)) with (quote k ++ ":" ++ stringify x)%string. cbn [snd].
    destruct l as [|y l'].
    + cbn [map list_sum fold_right]. rewrite !string_length_app. lia.
    + cbn [map] in *. rewrite !string_length_app. cbn [String.length]. lia.
Qed.

(** [JSON.parse] reads back what [JSON.stringify] wrote. *)
Theorem JSON_parse_stringify (v : json) :
  number_free v = true -> JSON_parse (stringify v) = Some v.
Proof.
  intros Hnf. unfold JSON_parse.
  pose proof (stringify_parses_back v Hnf (2 * String.length (stringify v) + 2) EmptyString) as H.
  assert (forall s, (s ++ "")%string = s) as Hnil.
  { induction s as [|c s IHs]; simpl; [reflexivity | now rewrite IHs]. }
  rewrite Hnil in H. rewrite H; [reflexivity|].
  pose proof (json_size_bound v). lia.
Qed.

Lemma strings_of_items_map (l : list string) : strings_of_items (map JString l) = Some l.
Proof.
  induction l as [|s l IH]; [reflexivity|]. cbn [map strings_of_items]. now rewrite IH.
Qed.

Lemma number_free_strings (l : list string) : number_free (json_of_strings l) = true.
Proof.
  unfold json_of_strings. cbn [number_free]. induction l as [|s l IH]; [reflexivity | exact IH].
Qed.

Lemma FilterState_of_json_of (f : FilterState) :
  FilterState_of_json (json_of_FilterState f) = Some f.
Proof.
  destruct f as [[o|] st ty lo cu mo de da]; unfold json_of_FilterState, FilterState_of_json;
    cbn [f_OID f_status f_type f_lock f_customer f_model f_designer f_days app];
    unfold field_of, json_of_strings; cbn -[strings_of_items];
    rewrite !strings_of_items_map; reflexivity.
Qed.

Lemma number_free_FilterState (f : FilterState) : number_free (json_of_FilterState f) = true.
Proof.
  destruct f as [[o|] st ty lo cu mo de da]; unfold json_of_FilterState;
    cbn [f_OID f_status f_type f_lock f_customer f_model f_designer f_days app
         number_free forallb snd];
    rewrite !number_free_strings; reflexivity.
Qed.

Lemma direction_of_name_of (d : SortDirection) : direction_of_name (direction_name d) = Some d.
Proof. destruct d; reflexivity. Qed.

Lemma Preset_of_json_of (p : Preset) : Preset_of_json (json_of_Preset p) = Some p.
Proof.
  destruct p as [n f k d]. unfold json_of_Preset, Preset_of_json.
  cbn [name filters sortKey sortDirection].
  cbn -[FilterState_of_json json_of_FilterState direction_of_name direction_name].
  now rewrite FilterState_of_json_of, direction_of_name_of.
Qed.

Lemma number_free_Preset (p : Preset) : number_free (json_of_Preset p) = true.
Proof.
  unfold json_of_Preset. cbn [number_free forallb snd].
  now rewrite number_free_FilterState.
Qed.

Lemma presets_of_json_of (ps : list Preset) : presets_of_json (json_of_presets ps) = Some ps.
Proof.
  unfold json_of_presets, presets_of_json.
  induction ps as [|p ps IH]; [reflexivity|].
  cbn [map presets_of_items]. now rewrite Preset_of_json_of, IH.
Qed.

Lemma number_free_presets (ps : list Preset) : number_free (json_of_presets ps) = true.
Proof.
  unfold json_of_presets. cbn [number_free].
  induction ps as [|p ps IH]; [reflexivity|].
  cbn [map forallb]. now rewrite number_free_Preset, IH.
Qed.

(** The stored preset list reads back as it was written. *)
Lemma presets_round_trip (ps : list Preset) :
  match JSON_parse (stringify (json_of_presets ps)) with
  | Some v => presets_of_json v
  | None => None
  end = Some ps.
Proof.
  rewrite JSON_parse_stringify by apply number_free_presets. apply presets_of_json_of.
Qed.

Lemma FilterState_round_trip (f : FilterState) :
  match JSON_parse (stringify (json_of_FilterState f)) with
  | Some v => FilterState_of_json v
  | None => None
  end = Some f.
Proof.
  rewrite JSON_parse_stringify by apply number_free_FilterState. apply FilterState_of_json_of.
Qed.

Local Open Scope Z_scope.

(** ** Blank names *)

Lemma list_of_rev_append_string (s acc : string) :
  list_ascii_of_string (rev_append_string s acc) =
  rev (list_ascii_of_string s) ++ list_ascii_of_string acc.
Proof.
  revert acc. induction s as [|c s IH]; intros acc; [reflexivity|].
  cbn [rev_append_string list_ascii_of_string rev]. rewrite IH, <- app_assoc. reflexivity.
Qed.

Lemma list_of_rev_string (s : string) :
  list_ascii_of_string (rev_string s) = rev (list_ascii_of_string s).
Proof. unfold rev_string. rewrite list_of_rev_append_string. apply app_nil_r. Qed.

Lemma blank_rev_string (s : string) : blank (rev_string s) <-> blank s.
Proof.
  unfold blank. rewrite list_of_rev_string.
  split; intros H c Hc; apply H; [now apply in_rev in Hc | now apply in_rev].
Qed.

Lemma rev_string_empty (s : string) : rev_string s = EmptyString -> s = EmptyString.
Proof.
  intros H. apply (f_equal list_ascii_of_string) in H. rewrite list_of_rev_string in H.
  destruct s as [|c s]; [reflexivity|]. cbn [list_ascii_of_string rev] in H.
  destruct (rev (list_ascii_of_string s)); discriminate.
Qed.

Lemma trimStart_empty (s : string) : trimStart s = EmptyString <-> blank s.
Proof.
  unfold blank. induction s as [|c s IH]; cbn [trimStart list_ascii_of_string].
  - split; [intros _ c [] | reflexivity].
  - destruct (is_js_space c) eqn:E.
    + rewrite IH. split.
      * intros H d [<- | Hd]; [exact E | now apply H].
      * intros H d Hd. apply H. now right.
    + split; [discriminate|]. intros H. specialize (H c (or_introl eq_refl)). congruence.
Qed.

Lemma trimStart_head (s : string) (c : ascii) (r : string) :
  trimStart s = String c r -> is_js_space c = false.
Proof.
  induction s as [|d s IH]; cbn [trimStart]; [discriminate|].
  destruct (is_js_space d) eqn:E; [exact IH|]. intros H. injection H as -> _. exact E.
Qed.

(** [!name.trim()] holds exactly of the names that are empty or made of
    white space only. *)
Lemma trim_empty_iff_blank (s : string) : trim s = EmptyString <-> blank s.
Proof.
  unfold trim, trimEnd. split.
  - intros H. apply rev_string_empty in H. apply (proj1 (trimStart_empty _)) in H.
    apply (proj1 (blank_rev_string _)) in H.
    destruct (trimStart s) as [|c r] eqn:E; [now apply trimStart_empty|].
    apply trimStart_head in E. specialize (H c (or_introl eq_refl)). congruence.
  - intros H. apply (proj2 (trimStart_empty _)) in H. rewrite H. reflexivity.
Qed.

Lemma savePreset_blank (st : AppState) : blank (st_name st) -> savePreset st = Normal st.
Proof.
  intros H. unfold savePreset. apply (proj2 (trim_empty_iff_blank _)) in H. now rewrite H.
Qed.

Lemma savePreset_not_blank (st : AppState) :
  ~ blank (st_name st) ->
  savePreset st =
  let updated :=
    filter (fun p => negb (String.eqb (name p) (st_name st))) (st_presets st) ++
    [mkPreset (st_name st) (st_filters st) (st_sortKey st) (st_sortDirection st)] in
  Normal
    (setName EmptyString
       (setStorage
          (setItem (st_localStorage st) "order-presets" (stringify (json_of_presets updated)))
          (setPresets updated st))).
Proof.
  intros H. unfold savePreset.
  destruct (String.eqb (trim (st_name st)) EmptyString) eqn:E; [|reflexivity].
  apply String.eqb_eq in E. apply (proj1 (trim_empty_iff_blank _)) in E. contradiction.
Qed.

Lemma filter_none {A : Type} (P : A -> bool) (l : list A) :
  (forall x, In x l -> P x = false) -> filter P l = [].
Proof.
  induction l as [|x l IH]; intros H; [reflexivity|].
  cbn [filter]. rewrite (H x (or_introl eq_refl)). apply IH. intros y Hy. apply H. now right.
Qed.

Lemma filter_named_app (n : string) (new : Preset) (ps : list Preset) :
  name new = n ->
  filter (fun p => String.eqb (name p) n)
    (filter (fun p => negb (String.eqb (name p) n)) ps ++ [new]) = [new].
Proof.
  intros Hn. rewrite filter_app, filter_filter.
  rewrite filter_none.
  - cbn [filter app]. rewrite Hn, String.eqb_refl. reflexivity.
  - intros p _. destruct (String.eqb (name p) n); reflexivity.
Qed.

Lemma filter_other_app (n m : string) (new : Preset) (ps : list Preset) :
  name new = n -> m <> n ->
  filter (fun p => String.eqb (name p) m)
    (filter (fun p => negb (String.eqb (name p) n)) ps ++ [new]) =
  filter (fun p => String.eqb (name p) m) ps.
Proof.
  intros Hn Hm. rewrite filter_app, filter_filter. cbn [filter].
  assert (String.eqb (name new) m = false) as ->.
  { apply String.eqb_neq. congruence. }
  rewrite app_nil_r. apply filter_ext. intros p.
  destruct (String.eqb (name p) m) eqn:E; [|apply andb_false_r].
  apply String.eqb_eq in E.
  assert (String.eqb (name p) n = false) as -> by (apply String.eqb_neq; congruence).
  reflexivity.
Qed.

(** ** Preset store *)

Lemma getItem_setItem_same (ls : Storage) (k v : string) : getItem (setItem ls k v) k = Some v.
Proof. unfold getItem, setItem. now rewrite String.eqb_refl. Qed.

Lemma getItem_setItem_other (ls : Storage) (k k' v : string) :
  k' <> k -> getItem (setItem ls k v) k' = getItem ls k'.
Proof.
  intros H. unfold getItem, setItem.
  destruct (String.eqb k' k) eqn:E; [apply String.eqb_eq in E; contradiction | reflexivity].
Qed.

Lemma stringify_presets_not_empty (ps : list Preset) :
  String.eqb (stringify (json_of_presets ps)) EmptyString = false.
Proof. reflexivity. Qed.

(** Mounting the preset manager on a store written by [savePreset] or
    [deletePreset] gives back the list that was written. *)
Lemma loadPresets_of_written (st : AppState) (ps : list Preset) :
  getItem (st_localStorage st) "order-presets" = Some (stringify (json_of_presets ps)) ->
  loadPresets st = Normal (setPresets ps st).
Proof.
  intros H. unfold loadPresets. rewrite H, stringify_presets_not_empty.
  pose proof (presets_round_trip ps) as R.
  destruct (JSON_parse (stringify (json_of_presets ps))) as [v|]; [|discriminate].
  now rewrite R.
Qed.

Lemma find_app_last {A : Type} (P : A -> bool) (l : list A) (x : A) :
  (forall y, In y l -> P y = false) -> P x = true -> find P (l ++ [x]) = Some x.
Proof.
  intros Hl Hx. induction l as [|y l IH]; cbn [app find].
  - now rewrite Hx.
  - rewrite (Hl y (or_introl eq_refl)). apply IH. intros z Hz. apply Hl. now right.
Qed.

Lemma find_after_save (n : string) (new : Preset) (ps : list Preset) :
  name new = n ->
  find (fun p => String.eqb (name p) n)
    (filter (fun p => negb (String.eqb (name p) n)) ps ++ [new]) = Some new.
Proof.
  intros Hn. apply find_app_last.
  - intros y Hy. apply filter_In in Hy. destruct Hy as [_ Hy].
    now destruct (String.eqb (name y) n).
  - rewrite Hn. apply String.eqb_refl.
Qed.

(** C5 (as amended): with a name that is empty or made of white space
    only, [savePreset] returns without an error and changes nothing, the
    stored collection included; with any other name it puts the preset in
    place of every stored preset of that name, leaves the presets of other
    names as they were, and writes the whole collection to the store under
    ["order-presets"], from where it reads back unchanged.  It throws in
    neither case. *)
Theorem savePreset_blank_noop_else_upsert (st : AppState) :
  (blank (st_name st) -> savePreset st = Normal st) /\
  (~ blank (st_name st) ->
   exists st',
     savePreset st = Normal st' /\
     filter (fun p => String.eqb (name p) (st_name st)) (st_presets st') =
       [mkPreset (st_name st) (st_filters st) (st_sortKey st) (st_sortDirection st)] /\
     (forall m, m <> st_name st ->
        filter (fun p => String.eqb (name p) m) (st_presets st') =
        filter (fun p => String.eqb (name p) m) (st_presets st)) /\
     getItem (st_localStorage st') "order-presets" =
       Some (stringify (json_of_presets (st_presets st'))) /\
     match JSON_parse (stringify (json_of_presets (st_presets st'))) with
     | Some v => presets_of_json v
     | None => None
     end = Some (st_presets st') /\
     (forall k, k <> "order-presets" ->
        getItem (st_localStorage st') k = getItem (st_localStorage st) k)) /\
  (forall e, savePreset st <> Throws e).
Proof.
  split; [apply savePreset_blank|]. split.
  - intros H. eexists. split; [apply (savePreset_not_blank st H)|].
    cbv zeta. cbn [st_presets st_localStorage setName setStorage setPresets].
    split; [now apply filter_named_app|].
    split; [intros m Hm; now apply filter_other_app|].
    split; [apply getItem_setItem_same|].
    split; [apply presets_round_trip|].
    intros k Hk. now apply getItem_setItem_other.
  - intros e. unfold savePreset.
    destruct (String.eqb (trim (st_name st)) EmptyString); discriminate.
Qed.

(** C5, the claim as stated fails: saving under a name of three spaces
    returns normally, with the state as it was; no [ValidationError] is
    thrown. *)
Lemma savePreset_blank_counterexample :
  let st := setName "   " (initial_state empty_storage) in
  savePreset st = Normal st /\ savePreset st <> Throws "ValidationError".
Proof. cbv zeta. split; [reflexivity | discriminate]. Qed.

(** C10 (as amended): saving under a name that is not blank and is
    already in the list removes the presets of that name and puts the new
    one last; the other presets stay, in the order they had; the stored
    list is the new list. *)
Theorem savePreset_existing_name_goes_last (st : AppState) :
  ~ blank (st_name st) ->
  In (st_name st) (map name (st_presets st)) ->
  exists st' kept,
    savePreset st = Normal st' /\
    st_presets st' =
      kept ++ [mkPreset (st_name st) (st_filters st) (st_sortKey st) (st_sortDirection st)] /\
    kept = filter (fun p => negb (String.eqb (name p) (st_name st))) (st_presets st) /\
    (forall p, In p kept -> name p <> st_name st) /\
    (List.length kept < List.length (st_presets st))%nat /\
    filter (fun p => negb (String.eqb (name p) (st_name st))) (st_presets st') = kept /\
    match getItem (st_localStorage st') "order-presets" with
    | Some text =>
        match JSON_parse text with
        | Some v => presets_of_json v
        | None => None
        end
    | None => None
    end = Some (st_presets st').
Proof.
  intros Hb Hin. eexists. eexists. split; [apply (savePreset_not_blank st Hb)|].
  cbv zeta. cbn [st_presets st_localStorage setName setStorage setPresets].
  split; [reflexivity|]. split; [reflexivity|].
  split.
  { intros p Hp. apply filter_In in Hp. destruct Hp as [_ Hp].
    destruct (String.eqb (name p) (st_name st)) eqn:E; [discriminate|].
    now apply String.eqb_neq. }
  split.
  { apply in_map_iff in Hin. destruct Hin as [p [Hp Hin]].
    clear Hb. induction (st_presets st) as [|q l IH]; [contradiction|].
    cbn [filter List.length].
    pose proof (filter_length_le (fun p => negb (String.eqb (name p) (st_name st))) l) as Hle.
    destruct Hin as [-> | Hin].
    - rewrite Hp, String.eqb_refl. cbn [negb]. lia.
    - specialize (IH Hin). destruct (negb (String.eqb (name q) (st_name st)));
        cbn [List.length]; lia. }
  split.
  { rewrite filter_app, filter_filter. cbn [filter name].
    rewrite String.eqb_refl. cbn [negb]. rewrite app_nil_r.
    apply filter_ext. intros p. apply andb_diag. }
  rewrite getItem_setItem_same. apply presets_round_trip.
Qed.

(** C10, the claim as stated fails for a blank name: a list that holds a
    preset named by one space is left as it is by a save under that name;
    the old entry stays and nothing is appended. *)
Lemma savePreset_existing_blank_counterexample :
  let old := mkPreset " " defaultFilterState "oid" asc in
  let st :=
    setSortKey "status" (setName " " (setPresets [old] (initial_state empty_storage))) in
  In (st_name st) (map name (st_presets st)) /\
  savePreset st = Normal st /\
  st_presets st = [old] /\
  st_presets st <> [mkPreset " " defaultFilterState "status" asc].
Proof.
  cbv zeta. split; [now left|]. split; [reflexivity|]. split; [reflexivity | discriminate].
Qed.

(** The witness of C10: of the presets a, b, c, saving under a leaves b, c
    and the new a, in this order. *)
Lemma savePreset_existing_name_witness :
  let a := mkPreset "a" defaultFilterState "oid" asc in
  let b := mkPreset "b" defaultFilterState "oid" desc in
  let c := mkPreset "c" defaultFilterState "status" asc in
  let st :=
    setSortKey "customer"
      (setName "a" (setPresets [a; b; c] (initial_state empty_storage))) in
  exists st',
    savePreset st = Normal st' /\
    st_presets st' = [b; c; mkPreset "a" defaultFilterState "customer" asc].
Proof.
  cbv zeta.
  destruct (savePreset_existing_name_goes_last
              (setSortKey "customer"
                 (setName "a"
                    (setPresets
                       [mkPreset "a" defaultFilterState "oid" asc;
                        mkPreset "b" defaultFilterState "oid" desc;
                        mkPreset "c" defaultFilterState "status" asc]
                       (initial_state empty_storage)))))
    as [st' [kept [Hsave [Hps [Hkept _]]]]].
  - intros H. specialize (H "a"%char (or_introl eq_refl)). discriminate.
  - now left.
  - exists st'. split; [exact Hsave|]. rewrite Hps, Hkept. reflexivity.
Defined.

Lemma not_blank_X : ~ blank "X".
Proof. intros H. specialize (H "X"%char (or_introl eq_refl)). discriminate. Qed.

(** C6: after [save("X", F, "oid", "asc")], loading ["X"] yields the
    preset with filters [F], sort key ["oid"] and direction [asc], and
    makes them the current filters and sort.  This holds in the session of
    the save, after the preset manager is mounted anew on the store (the
    list goes through [JSON.stringify] and [JSON.parse]), and for the
    page's own start-up once ["X"] is the active preset. *)
Theorem save_then_load_round_trip (F : FilterState) (st0 : AppState) :
  let st := setSortDirection asc (setSortKey "oid" (setFilters F (setName "X" st0))) in
  let X := mkPreset "X" F "oid" asc in
  exists st1,
    savePreset st = Normal st1 /\
    (exists st2,
       load "X" st1 = Some (X, st2) /\
       st_filters st2 = F /\ st_sortKey st2 = "oid" /\ st_sortDirection st2 = asc /\
       st_activePresetName st2 = Some "X" /\
       (forall allOrders, exists st5,
          HomePage_mount allOrders (initial_state (st_localStorage st2)) = Normal st5 /\
          st_filters st5 = F /\ st_sortKey st5 = "oid" /\ st_sortDirection st5 = asc)) /\
    (exists st3 st4,
       loadPresets (initial_state (st_localStorage st1)) = Normal st3 /\
       st_presets st3 = st_presets st1 /\
       load "X" st3 = Some (X, st4) /\
       st_filters st4 = F /\ st_sortKey st4 = "oid" /\ st_sortDirection st4 = asc).
Proof.
  cbv zeta.
  set (st := setSortDirection asc (setSortKey "oid" (setFilters F (setName "X" st0)))).
  set (X := mkPreset "X" F "oid" asc).
  set (updated := filter (fun p => negb (String.eqb (name p) "X")) (st_presets st0) ++ [X]).
  set (text := stringify (json_of_presets updated)).
  set (st1 := setName EmptyString
                (setStorage (setItem (st_localStorage st) "order-presets" text)
                   (setPresets updated st))).
  assert (Hsave : savePreset st = Normal st1).
  { rewrite (savePreset_not_blank st not_blank_X). reflexivity. }
  assert (Hfind : find (fun p => String.eqb (name p) "X") updated = Some X).
  { apply find_after_save. reflexivity. }
  exists st1. split; [exact Hsave|]. split.
  - exists (loadPreset X st1). unfold load.
    change (st_presets st1) with updated. rewrite Hfind.
    repeat (split; [reflexivity|]).
    intros allOrders. eexists. unfold HomePage_mount, load_saved.
    change (getItem (st_localStorage (initial_state (st_localStorage (loadPreset X st1))))
              "order-presets") with (Some text).
    change (getItem (st_localStorage (initial_state (st_localStorage (loadPreset X st1))))
              "active-order-preset") with (Some "X").
    unfold truthy. unfold text at 1. rewrite stringify_presets_not_empty.
    cbn [negb andb String.eqb Ascii.eqb Bool.eqb].
    pose proof (presets_round_trip updated) as R. fold text in R.
    destruct (JSON_parse text) as [v|]; [|discriminate]. rewrite R, Hfind.
    repeat split; reflexivity.
  - exists (setPresets updated (initial_state (st_localStorage st1))),
           (loadPreset X (setPresets updated (initial_state (st_localStorage st1)))).
    split; [apply loadPresets_of_written; reflexivity|].
    split; [reflexivity|].
    unfold load. change (st_presets (setPresets updated _)) with updated. rewrite Hfind.
    repeat split; reflexivity.
Qed.

(** ** Corrupted store *)

Lemma load_saved_early (allOrders : list Order) (st : AppState) (o : outcome) :
  load_saved allOrders st = inl o -> exists st', o = Normal st'.
Proof.
  unfold load_saved.
  repeat match goal with
         | |- context [match ?x with _ => _ end] => destruct x
         | |- context [if ?x then _ else _] => destruct x
         end;
    intros H; try discriminate; injection H as <-; eexists; reflexivity.
Qed.

Lemma HomePage_mount_never_throws (allOrders : list Order) (st : AppState) (e : string) :
  HomePage_mount allOrders st <> Throws e.
Proof.
  unfold HomePage_mount.
  destruct (load_saved allOrders st) as [o | [st' | e' | ]] eqn:E; try discriminate.
  apply load_saved_early in E. destruct E as [st' ->]. discriminate.
Qed.

(** C3: with a stored preset list that is not JSON, mounting the preset
    manager throws the parser's [SyntaxError] out of its effect and sets
    no list, where the claim asks for an empty list and no error; the
    effect of the page, which parses the same key inside [try], never lets
    an exception out. *)
Theorem corrupted_presets_throw_in_PresetManager (st : AppState) (saved : string) :
  getItem (st_localStorage st) "order-presets" = Some saved ->
  saved <> EmptyString ->
  JSON_parse saved = None ->
  loadPresets st = Throws "SyntaxError" /\
  (forall allOrders e, HomePage_mount allOrders st <> Throws e).
Proof.
  intros Hget Hne Hparse. split.
  - unfold loadPresets. rewrite Hget.
    destruct (String.eqb saved EmptyString) eqn:E; [apply String.eqb_eq in E; contradiction|].
    now rewrite Hparse.
  - intros allOrders e. apply HomePage_mount_never_throws.
Qed.

(** The store holds an opening brace under ["order-presets"]. *)
Lemma corrupted_presets_witness :
  let st := initial_state (setItem empty_storage "order-presets" "{") in
  loadPresets st = Throws "SyntaxError" /\
  (forall allOrders e, HomePage_mount allOrders st <> Throws e).
Proof.
  cbv zeta.
  apply (corrupted_presets_throw_in_PresetManager
           (initial_state (setItem empty_storage "order-presets" "{")) "{").
  - reflexivity.
  - discriminate.
  - reflexivity.
Defined.

(** With an active preset named in the store, the page's effect meets the
    same corrupted list, catches the error, warns and goes on. *)
Lemma HomePage_mount_corrupted_presets (allOrders : list Order) :
  let ls := setItem (setItem empty_storage "order-presets" "{") "active-order-preset" "X" in
  HomePage_mount allOrders (initial_state ls) =
  Normal (setLoading false
            (console_warn "Failed to load saved filters or presets" (initial_state ls))).
Proof. reflexivity. Qed.

(** ** Option lists *)

Section SetFacts.
Context {A : Type}.
Variable eqb : A -> A -> bool.
Hypothesis eqb_eq : forall x y, eqb x y = true <-> x = y.

Lemma Set_has_In (content : list A) (x : A) : Set_has eqb content x = true <-> In x content.
Proof.
  unfold Set_has. rewrite existsb_exists. split.
  - intros [y [Hy E]]. apply eqb_eq in E. now subst.
  - intros H. exists x. split; [assumption | now apply eqb_eq].
Qed.

Lemma Set_add_In (content : list A) (x y : A) :
  In y (Set_add eqb content x) <-> In y content \/ y = x.
Proof.
  unfold Set_add. destruct (Set_has eqb content x) eqn:E.
  - apply Set_has_In in E. split; [tauto | intros [H | ->]; assumption].
  - rewrite in_app_iff. cbn [In]. intuition.
Qed.

Lemma Set_add_NoDup (content : list A) (x : A) :
  NoDup content -> NoDup (Set_add eqb content x).
Proof.
  intros H. unfold Set_add. destruct (Set_has eqb content x) eqn:E; [assumption|].
  apply NoDup_app; [assumption | repeat constructor; intros [] |].
  intros a Ha [<- | []].
  apply (proj2 (Set_has_In content x)) in Ha. congruence.
Qed.

Lemma fold_Set_add_In (l content : list A) (y : A) :
  In y (fold_left (Set_add eqb) l content) <-> In y content \/ In y l.
Proof.
  revert content. induction l as [|x l IH]; intros content; cbn [fold_left In].
  - tauto.
  - rewrite IH, Set_add_In. intuition.
Qed.

Lemma fold_Set_add_NoDup (l content : list A) :
  NoDup content -> NoDup (fold_left (Set_add eqb) l content).
Proof.
  revert content. induction l as [|x l IH]; intros content H; cbn [fold_left];
    [assumption | now apply IH, Set_add_NoDup].
Qed.

(** The values of a set built from a list are the values of the list,
    each once. *)
Lemma Array_from_Set_In (l : list A) (y : A) : In y (Array_from_Set eqb l) <-> In y l.
Proof. unfold Array_from_Set. rewrite fold_Set_add_In. cbn [In]. tauto. Qed.

Lemma Array_from_Set_NoDup (l : list A) : NoDup (Array_from_Set eqb l).
Proof. apply fold_Set_add_NoDup. constructor. Qed.

(** First-seen order: a value goes last when it is met for the first
    time. *)
Lemma Array_from_Set_snoc (l : list A) (x : A) :
  Array_from_Set eqb (l ++ [x]) = Set_add eqb (Array_from_Set eqb l) x.
Proof. unfold Array_from_Set. now rewrite fold_left_app. Qed.

End SetFacts.

Lemma JsVal_eqb_eq (x y : JsVal) : JsVal_eqb x y = true <-> x = y.
Proof.
  destruct x, y; cbn [JsVal_eqb]; split; intros H; try discriminate; try reflexivity.
  - apply Z.eqb_eq in H. now subst.
  - injection H as ->. apply Z.eqb_refl.
  - apply String.eqb_eq in H. now subst.
  - injection H as ->. apply String.eqb_refl.
Qed.

Lemma as_strings_In (l : list JsVal) (s : string) : In s (as_strings l) <-> In (VString s) l.
Proof.
  unfold as_strings. rewrite in_flat_map. split.
  - intros [v [Hv Hs]]. destruct v; cbn [In] in Hs; try contradiction.
    destruct Hs as [<- | []]. assumption.
  - intros H. exists (VString s). split; [assumption | now left].
Qed.

Lemma as_strings_NoDup (l : list JsVal) : NoDup l -> NoDup (as_strings l).
Proof.
  induction l as [|v l IH]; intros H; [constructor|].
  inversion H as [|? ? Hv Hl]; subst. specialize (IH Hl).
  destruct v; cbn [as_strings flat_map app]; try exact IH.
  constructor; [|exact IH]. intros Hin. apply Hv. now apply as_strings_In.
Qed.

(** The options of a field read by [getUnique]: the distinct non-empty
    values of that field, each once. *)
Lemma getUnique_spec (allOrders : list Order) (key s : string) :
  (In s (getUnique allOrders key) <->
   s <> EmptyString /\ exists o, In o allOrders /\ order_get o key = VString s) /\
  NoDup (getUnique allOrders key).
Proof.
  unfold getUnique. split.
  - rewrite as_strings_In, filter_In, (Array_from_Set_In _ JsVal_eqb_eq), in_map_iff.
    cbn [Boolean]. split.
    + intros [[o [Ho Hin]] Hb]. split; [|now exists o].
      intros ->. discriminate.
    + intros [Hne [o [Hin Ho]]]. split; [now exists o|].
      destruct (String.eqb s EmptyString) eqn:E; [|reflexivity].
      apply String.eqb_eq in E. contradiction.
  - apply as_strings_NoDup, NoDup_filter, (Array_from_Set_NoDup _ JsVal_eqb_eq).
Qed.

(** The status options: every value of [statusLeft] or [statusRight],
    each once, the empty string not excepted. *)
Lemma allStatuses_spec (allOrders : list Order) (s : string) :
  (In s (allStatuses allOrders) <->
   exists o, In o allOrders /\ (statusLeft o = s \/ statusRight o = s)) /\
  NoDup (allStatuses allOrders).
Proof.
  unfold allStatuses. split.
  - rewrite (Array_from_Set_In _ String.eqb_eq), in_flat_map. cbn [In].
    split; intros [o [Hin H]]; exists o; tauto.
  - apply (Array_from_Set_NoDup _ String.eqb_eq).
Qed.

Lemma getOptionsForKey_days (u : UniqueValues) :
  getOptionsForKey u K_days = [ "<5"; "<15"; "<30"; "<60" ].
Proof. reflexivity. Qed.

(** C8: on a collection whose one order has the empty string as
    [statusLeft], the status options hold the empty string, where the
    claim wants non-empty values only; the empty [lock] of the same order
    is left out of the lock options, by the [filter(Boolean)] that the
    status options lack. *)
Theorem status_options_keep_empty_string :
  let o := mkOrder 1 "" "QC" "Order" "" "Acme" 3 "M1" "Dana" in
  getOptionsForKey (uniqueValues [o]) K_status = [ ""; "QC" ] /\
  getOptionsForKey (uniqueValues [o]) K_lock = [] /\
  getOptionsForKey (uniqueValues [o]) K_customer = [ "Acme" ].
Proof. cbv zeta. repeat split; reflexivity. Qed.

(** ** Page reset *)

(** The four handlers of the filter columns and of "All" go back to the
    first page. *)
Lemma filter_handlers_reset_page (st : AppState) (key : FilterKey) (opt : string)
    (options : list string) (u : UniqueValues) :
  st_page (handleToggleOption key opt st) = 1 /\
  st_page (selectAll key options st) = 1 /\
  st_page (clearFilter key st) = 1 /\
  st_page (handleAllSelect u st) = 1.
Proof. repeat split; reflexivity. Qed.

(** C9: "Clear Selection" and loading a preset replace the filters and
    leave the page number as it was, where the claim wants page 1: from
    page 3 the table stays on page 3. *)
Theorem clear_and_load_keep_page (st : AppState) (preset : Preset) :
  st_filters (clearSelection st) = defaultFilterState /\
  st_page (clearSelection st) = st_page st /\
  st_filters (loadPreset preset st) = filters preset /\
  st_page (loadPreset preset st) = st_page st /\
  st_page (clearSelection (changePage 3 st)) = 3 /\
  st_page (loadPreset preset (changePage 3 st)) = 3.
Proof. repeat split; reflexivity. Qed.

(** ** Worked examples *)

Lemma threshold_bucket_labels :
  map threshold DAYS_FILTER_OPTIONS = [ Some 5; Some 15; Some 30; Some 60 ].
Proof. reflexivity. Qed.

(** A label with no number has no threshold; text after the number is
    ignored; the first ["<"] is deleted wherever it stands. *)
Lemma threshold_odd_labels :
  threshold "<abc" = None /\ threshold "" = None /\
  threshold "<15abc" = Some 15 /\ threshold " <-3" = Some (-3) /\
  threshold "1<5" = Some 15 /\ threshold "<<5" = None.
Proof. repeat split; reflexivity. Qed.

Lemma matchDays_ten_days :
  matchDays 10 [ "<15" ] = true /\
  matchDays 10 [ "<5" ] = false /\
  matchDays 10 [ "<5"; "<15" ] = true /\
  matchDays 10 [ "<abc" ] = false.
Proof. repeat split; reflexivity. Qed.

(** The filter with every selection empty lets every order pass. *)
Lemma matches_defaultFilterState (o : Order) : matches o defaultFilterState = true.
Proof. reflexivity. Qed.

Lemma filteredOrders_defaultFilterState (allOrders : list Order) :
  filteredOrders allOrders defaultFilterState = allOrders.
Proof.
  unfold filteredOrders. induction allOrders as [|o l IH]; [reflexivity|].
  cbn [filter]. rewrite matches_defaultFilterState. now rewrite IH.
Qed.

(** Twenty-five orders on pages of ten: three pages, the third holds
    five. *)
Lemma pagination_of_25 (o : Order) :
  let data := repeat o 25 in
  pages data = 3 /\
  List.length (paginatedData data 1) = 10%nat /\
  List.length (paginatedData data 3) = 5%nat /\
  paginatedData data 4 = [].
Proof. cbv zeta. repeat split; reflexivity. Qed.

(** Sorting by status, ascending: an unlisted status first, then "Open
    Order", "Delivered" last; orders of one status keep their order. *)
Lemma sort_by_status_example :
  let o (i : Z) (s : string) := mkOrder i s "QC" "Order" "" "Acme" 1 "M1" "Dana" in
  sortedAndFilteredOrders
    [ o 1 "Delivered"; o 2 "Open Order"; o 3 "On hold"; o 4 "Open Order" ]
    defaultFilterState "status" asc =
  [ o 3 "On hold"; o 2 "Open Order"; o 4 "Open Order"; o 1 "Delivered" ].
Proof. reflexivity. Qed.

(** Deleting the active preset clears the active name, in the state and
    in the store; deleting another one leaves it. *)
Lemma deletePreset_active (n : string) (st : AppState) :
  getItem (st_localStorage st) "active-order-preset" = Some n ->
  st_activePresetName (deletePreset n st) = None /\
  getItem (st_localStorage (deletePreset n st)) "active-order-preset" = None /\
  (forall p, In p (st_presets (deletePreset n st)) -> name p <> n).
Proof.
  intros H. unfold deletePreset.
  cbn [st_localStorage setStorage setPresets].
  rewrite getItem_setItem_other by discriminate. rewrite H, String.eqb_refl.
  repeat split.
  intros p Hp. cbn [st_presets setActivePresetName setStorage setPresets] in Hp.
  apply filter_In in Hp. destruct Hp as [_ Hp].
  destruct (String.eqb (name p) n) eqn:E; [discriminate | now apply String.eqb_neq].
Qed.

Lemma deletePreset_other (n active : string) (st : AppState) :
  getItem (st_localStorage st) "active-order-preset" = Some active ->
  active <> n ->
  st_activePresetName (deletePreset n st) = st_activePresetName st /\
  getItem (st_localStorage (deletePreset n st)) "active-order-preset" = Some active.
Proof.
  intros H Hne. unfold deletePreset.
  cbn [st_localStorage setStorage setPresets].
  rewrite getItem_setItem_other by discriminate. rewrite H.
  destruct (String.eqb active n) eqn:E; [apply String.eqb_eq in E; contradiction|].
  split; [reflexivity|].
  cbn [st_localStorage setStorage]. rewrite getItem_setItem_other by discriminate. exact H.
Qed.

(** * Further properties of the code *)

(** ** Pages *)

Lemma paginatedData_firstn_skipn (data : list Order) (i : nat) :
  paginatedData data (Z.of_nat (S i)) = firstn 10 (skipn (10 * i) data).
Proof.
  unfold paginatedData, slice, rowsPerPage.
  destruct ((Z.of_nat (S i) - 1) * 10 <? 0) eqn:E1; [apply Z.ltb_lt in E1; lia|].
  destruct (Z.of_nat (S i) * 10 <? 0) eqn:E2; [apply Z.ltb_lt in E2; lia|].
  destruct (Nat.le_gt_cases (List.length data) (10 * i)) as [Hle | Hgt].
  - rewrite (skipn_all2 data) by lia. rewrite (skipn_all2 data) by lia.
    now rewrite !firstn_nil.
  - replace (Z.to_nat (Z.min ((Z.of_nat (S i) - 1) * 10) (Z.of_nat (List.length data))))
      with (10 * i)%nat by lia.
    destruct (Nat.le_gt_cases (List.length data) (10 * S i)) as [Hle' | Hgt'].
    + rewrite !firstn_all2; [reflexivity | rewrite length_skipn; lia | rewrite length_skipn; lia].
    + f_equal. lia.
Qed.

Lemma chunks_concat (n : nat) (data : list Order) :
  (List.length data <= 10 * n)%nat ->
  List.concat (map (fun i => firstn 10 (skipn (10 * i) data)) (seq 0 n)) = data.
Proof.
  revert data. induction n as [|n IH]; intros data Hlen.
  - destruct data; [reflexivity | simpl in Hlen; lia].
  - cbn [seq map List.concat]. rewrite <- seq_shift, map_map.
    rewrite (map_ext _ (fun i => firstn 10 (skipn (10 * i) (skipn 10 data)))).
    + rewrite IH; [apply firstn_skipn | rewrite length_skipn; lia].
    + intros i. rewrite skipn_skipn. do 2 f_equal. lia.
Qed.

Lemma pages_upto_chunks (data : list Order) (n : nat) :
  pages_upto data n = map (fun i => firstn 10 (skipn (10 * i) data)) (seq 0 n).
Proof.
  unfold pages_upto. rewrite <- seq_shift, map_map. apply map_ext.
  intros i. apply paginatedData_firstn_skipn.
Qed.

Lemma pages_bounds (data : list Order) :
  10 * (pages data - 1) < Z.of_nat (List.length data) <= 10 * pages data.
Proof. apply (Math_ceil_div_spec (Z.of_nat (List.length data)) 10). reflexivity. Qed.

(** X1: the pages 1 to [pages data], one after the other, are the data:
    every row is shown on exactly one page, in the order of the data. *)
Theorem pages_partition_data (data : list Order) :
  List.concat (pages_upto data (Z.to_nat (pages data))) = data.
Proof.
  rewrite pages_upto_chunks. apply chunks_concat.
  pose proof (pages_bounds data). lia.
Qed.

(** X2: a page within [1 .. pages data] holds at least one row and at
    most ten, every page before the last holds ten; a page after the last
    is empty. *)
Theorem page_sizes (data : list Order) (page : Z) :
  (1 <= page <= pages data ->
     (1 <= List.length (paginatedData data page) <= 10)%nat /\
     (page < pages data -> List.length (paginatedData data page) = 10%nat)) /\
  (pages data < page -> paginatedData data page = []).
Proof.
  pose proof (pages_bounds data) as Hb. split.
  - intros Hp. pose proof (paginatedData_length data page ltac:(lia)) as Hl.
    unfold rowsPerPage in Hl. split; [lia|]. intros Hlt. lia.
  - intros Hp. assert (1 <= page) as H1 by lia.
    pose proof (paginatedData_length data page H1) as Hl. unfold rowsPerPage in Hl.
    apply length_zero_iff_nil. lia.
Qed.

(** ** Sorting *)

Lemma sort_value_unknown_key (k : string) (a : Order) :
  ~ In k validKeys -> sort_value k a = VUndefined.
Proof.
  intros H. unfold sort_value, order_get.
  repeat match goal with
         | |- context [String.eqb k ?s] =>
             destruct (String.eqb k s) eqn:?E;
             [apply String.eqb_eq in E; exfalso; apply H; subst k; cbn; tauto | clear E]
         end.
  reflexivity.
Qed.

Lemma sort_all_equal {A : Type} (cmp : A -> A -> Z) (l : list A) :
  (forall x y, cmp x y <= 0) -> sort cmp l = l.
Proof.
  intros H. induction l as [|x l IH]; [reflexivity|].
  cbn [sort]. rewrite IH. destruct l as [|y l]; [reflexivity|].
  cbn [insert_sorted]. specialize (H x y). apply Z.leb_le in H. now rewrite H.
Qed.

(** X3: under a sort key that names no sortable value (a stale or
    misspelt key of a stored preset), both directions leave the filtered
    orders in the order of the data. *)
Theorem unknown_sort_key_keeps_order
    (allOrders : list Order) (f : FilterState) (k : string) (d : SortDirection) :
  ~ In k validKeys ->
  sortedAndFilteredOrders allOrders f k d = filteredOrders allOrders f.
Proof.
  intros H. unfold sortedAndFilteredOrders. apply sort_all_equal.
  intros x y. unfold compareFn. rewrite !(sort_value_unknown_key k _ H). cbn. lia.
Qed.

(** An instance of the theorem above. *)
Lemma unknown_sort_key_witness :
  sortedAndFilteredOrders
    [ mkOrder 2 "QC" "QC" "Order" "" "Zed" 7 "M1" "Dana";
      mkOrder 1 "QC" "QC" "Order" "" "Acme" 3 "M1" "Dana" ]
    defaultFilterState "OID" desc =
  filteredOrders
    [ mkOrder 2 "QC" "QC" "Order" "" "Zed" 7 "M1" "Dana";
      mkOrder 1 "QC" "QC" "Order" "" "Acme" 3 "M1" "Dana" ]
    defaultFilterState.
Proof.
  apply unknown_sort_key_keeps_order.
  cbn. intros H. repeat (destruct H as [H | H]; [discriminate|]). exact H.
Defined.

Lemma compareFn_desc (k : string) (a b : Order) :
  compareFn k desc a b = compareFn k asc b a.
Proof.
  unfold compareFn.
  destruct (js_lt (sort_value k a) (sort_value k b)) eqn:E1.
  - now rewrite (js_lt_asym _ _ E1).
  - destruct (js_lt (sort_value k b) (sort_value k a)); reflexivity.
Qed.

Lemma StronglySorted_app_inv {A : Type} (R : A -> A -> Prop) (l1 l2 : list A) :
  StronglySorted R l1 -> StronglySorted R l2 ->
  (forall x y, In x l1 -> In y l2 -> R x y) ->
  StronglySorted R (l1 ++ l2).
Proof.
  intros H1 H2 H. induction l1 as [|a l1 IH]; [exact H2|].
  inversion H1 as [|? ? S1 F1]; subst. cbn [app]. constructor.
  - apply IH; [assumption|]. intros x y Hx Hy. apply H; [now right | assumption].
  - apply Forall_app. split; [assumption|].
    apply Forall_forall. intros y Hy. apply H; [now left | assumption].
Qed.

Lemma StronglySorted_rev {A : Type} (R : A -> A -> Prop) (l : list A) :
  StronglySorted R l -> StronglySorted (fun x y => R y x) (rev l).
Proof.
  induction 1 as [|a l S IH F]; [constructor|].
  cbn [rev]. apply StronglySorted_app_inv; [assumption | repeat constructor |].
  intros x y Hx [<- | []]. rewrite Forall_forall in F. apply F. now apply in_rev.
Qed.

Lemma class_at_most_one (k : string) (d : SortDirection) (z : Order) (l : list Order) :
  NoDup (map (sort_value k) l) ->
  (List.length (filter (fun y => (compareFn k d z y =? 0)%Z) l) <= 1)%nat.
Proof.
  induction l as [|x l IH]; intros Hn; [cbn; lia|].
  cbn [map] in Hn. inversion Hn as [|? ? Hx Hl]; subst. specialize (IH Hl).
  cbn [filter]. destruct (compareFn k d z x =? 0) eqn:E; [|exact IH].
  apply Z.eqb_eq in E. apply compareFn_zero in E.
  rewrite filter_none; [cbn; lia|].
  intros y Hy. apply Z.eqb_neq. intros E'. apply compareFn_zero in E'.
  apply Hx. rewrite <- E, E'. now apply in_map.
Qed.

Lemma rev_short {A : Type} (l : list A) : (List.length l <= 1)%nat -> rev l = l.
Proof. destruct l as [|a [|b l]]; cbn; try reflexivity; lia. Qed.

(** X4: when the filtered orders have pairwise different values under
    the sort key (as under [oid]), the descending table is the ascending
    table read backwards. *)
Theorem descending_reverses_ascending
    (allOrders : list Order) (f : FilterState) (k : string) :
  NoDup (map (sort_value k) (filteredOrders allOrders f)) ->
  sortedAndFilteredOrders allOrders f k desc = rev (sortedAndFilteredOrders allOrders f k asc).
Proof.
  intros Hn. unfold sortedAndFilteredOrders. symmetry.
  apply (stable_sort_unique _ (compareFn_antisym k desc) (compareFn_trans k desc)).
  - pose proof (sort_strongly_sorted _ (compareFn_antisym k asc) (compareFn_trans k asc)
                  (filteredOrders allOrders f)) as Hs.
    apply StronglySorted_rev in Hs.
    eapply StronglySorted_ind with (P := StronglySorted (le_by (compareFn k desc))).
    + constructor.
    + intros x l _ IH Hall. constructor; [exact IH|].
      eapply Forall_impl; [|exact Hall]. intros y Hy. unfold le_by in *.
      cbv beta in Hy. rewrite compareFn_desc. exact Hy.
    + exact Hs.
  - intros z. rewrite filter_rev.
    assert (Hext : forall y, (compareFn k desc z y =? 0) = (compareFn k asc z y =? 0)).
    { intros y. rewrite compareFn_desc, (compareFn_antisym k asc z y).
      destruct (Z.eqb_spec (compareFn k asc z y) 0) as [->|Hne]; [reflexivity|].
      apply Z.eqb_neq. lia. }
    rewrite !(filter_ext _ _ Hext).
    rewrite (sort_stable _ (compareFn_antisym k asc) (compareFn_trans k asc)).
    apply rev_short. now apply class_at_most_one.
Qed.

(** An instance of the theorem above. *)
Lemma descending_reverses_witness :
  let a := mkOrder 2 "QC" "QC" "Order" "" "Zed" 7 "M1" "Dana" in
  let b := mkOrder 1 "QC" "QC" "Order" "" "Acme" 3 "M1" "Dana" in
  let c := mkOrder 3 "QC" "QC" "Order" "" "Moss" 5 "M1" "Dana" in
  sortedAndFilteredOrders [a; b; c] defaultFilterState "oid" desc =
  rev (sortedAndFilteredOrders [a; b; c] defaultFilterState "oid" asc).
Proof.
  cbv zeta. apply descending_reverses_ascending.
  cbn. repeat constructor; cbn; intros H;
    repeat (destruct H as [H | H]; [discriminate|]); exact H.
Defined.

Lemma arrowIcon_right_iff (o : Order) :
  arrowIcon o = ChevronRight <-> 3 <= indexOf statusPriority (statusLeft o).
Proof.
  unfold arrowIcon. destruct (Set_has String.eqb completedStatuses (statusLeft o)) eqn:E.
  - split; [intros _ | reflexivity].
    apply (Set_has_In _ String.eqb_eq) in E. cbn in E.
    destruct E as [<- | [<- | [<- | []]]]; vm_compute; discriminate.
  - split; [discriminate|]. intros H. exfalso.
    assert (In (statusLeft o) statusPriority) as Hin.
    { destruct (in_dec string_dec (statusLeft o) statusPriority) as [Hin | Hn]; [assumption|].
      rewrite (indexOf_from_absent _ 0 _ Hn : indexOf _ _ = -1) in H. lia. }
    cbn in Hin.
    destruct Hin as [Hs | [Hs | [Hs | [Hs | [Hs | [Hs | []]]]]]];
      rewrite <- Hs in *; vm_compute in H, E; try discriminate; apply H; reflexivity.
Qed.

(** X5: in the table sorted by status, ascending, the rows of completed
    orders (right chevron) come last: no row with a down chevron follows a
    row with a right chevron. *)
Theorem completed_rows_come_last
    (allOrders : list Order) (f : FilterState) (l1 l2 l3 : list Order) (a b : Order) :
  sortedAndFilteredOrders allOrders f "status" asc = l1 ++ a :: l2 ++ b :: l3 ->
  arrowIcon a = ChevronRight ->
  arrowIcon b = ChevronRight.
Proof.
  intros Hout Ha. apply arrowIcon_right_iff in Ha. apply arrowIcon_right_iff.
  pose proof (sort_strongly_sorted _ (compareFn_antisym "status" asc)
                (compareFn_trans "status" asc) (filteredOrders allOrders f)) as Hs.
  fold (sortedAndFilteredOrders allOrders f "status" asc) in Hs. rewrite Hout in Hs.
  clear Hout. induction l1 as [|x l1 IH].
  - cbn [app] in Hs. inversion Hs as [|? ? _ F]; subst.
    rewrite Forall_forall in F.
    assert (le_by (compareFn "status" asc) a b) as Hab.
    { apply F. apply in_or_app. right. now left. }
    unfold le_by in Hab. apply (proj1 (compareFn_le "status" asc a b)) in Hab.
    rewrite !sort_value_status in Hab. cbn [js_lt] in Hab. apply Z.ltb_ge in Hab. lia.
  - apply IH. cbn [app] in Hs. now inversion Hs.
Qed.

(** An instance of the theorem above. *)
Lemma completed_rows_witness :
  let o (i : Z) (s : string) := mkOrder i s "QC" "Order" "" "Acme" 1 "M1" "Dana" in
  arrowIcon (o 1 "Delivered") = ChevronRight.
Proof.
  cbv zeta.
  apply (completed_rows_come_last
           [ mkOrder 1 "Delivered" "QC" "Order" "" "Acme" 1 "M1" "Dana";
             mkOrder 2 "QC" "QC" "Order" "" "Acme" 1 "M1" "Dana";
             mkOrder 3 "Drying" "QC" "Order" "" "Acme" 1 "M1" "Dana" ]
           defaultFilterState
           [ mkOrder 3 "Drying" "QC" "Order" "" "Acme" 1 "M1" "Dana" ] [] []
           (mkOrder 2 "QC" "QC" "Order" "" "Acme" 1 "M1" "Dana")
           (mkOrder 1 "Delivered" "QC" "Order" "" "Acme" 1 "M1" "Dana"));
    reflexivity.
Defined.

(** ** Options of the filter columns *)

Lemma fold_Set_add_prefix {A : Type} (eqb : A -> A -> bool)
    (eqb_eq : forall x y, eqb x y = true <-> x = y) (l content : list A) :
  exists ext,
    fold_left (Set_add eqb) l content = content ++ ext /\
    (forall x, In x ext -> ~ In x content).
Proof.
  revert content. induction l as [|a l IH]; intros content; cbn [fold_left].
  - exists []. split; [now rewrite app_nil_r | intros x []].
  - destruct (IH (Set_add eqb content a)) as [ext [E Hext]]. unfold Set_add in *.
    destruct (Set_has eqb content a) eqn:Ha.
    + exists ext. split; assumption.
    + exists (a :: ext). split; [rewrite E, <- app_assoc; reflexivity|].
      intros x [<- | Hx] Hin.
      * apply (proj2 (Set_has_In eqb eqb_eq content a)) in Hin. congruence.
      * apply (Hext x Hx). apply in_or_app. now left.
Qed.

Lemma Array_from_Set_app {A : Type} (eqb : A -> A -> bool)
    (eqb_eq : forall x y, eqb x y = true <-> x = y) (l1 l2 : list A) :
  exists ext,
    Array_from_Set eqb (l1 ++ l2) = Array_from_Set eqb l1 ++ ext /\
    (forall x, In x ext -> ~ In x (Array_from_Set eqb l1)).
Proof.
  unfold Array_from_Set. rewrite fold_left_app. now apply fold_Set_add_prefix.
Qed.

Lemma as_strings_app (l1 l2 : list JsVal) :
  as_strings (l1 ++ l2) = as_strings l1 ++ as_strings l2.
Proof. unfold as_strings. apply flat_map_app. Qed.

Lemma getUnique_app (all1 all2 : list Order) (key : string) :
  exists ext,
    getUnique (all1 ++ all2) key = getUnique all1 key ++ ext /\
    (forall s, In s ext -> ~ In s (getUnique all1 key)).
Proof.
  unfold getUnique. rewrite map_app.
  destruct (Array_from_Set_app JsVal_eqb JsVal_eqb_eq
              (map (fun o => order_get o key) all1) (map (fun o => order_get o key) all2))
    as [ext [E Hext]].
  rewrite E, filter_app, as_strings_app.
  exists (as_strings (filter Boolean ext)). split; [reflexivity|].
  intros s Hs Hin. apply as_strings_In in Hs, Hin. apply filter_In in Hs, Hin.
  apply (Hext (VString s)); tauto.
Qed.

(** X6: first-seen order.  The options of a column computed from a
    longer collection start with the options computed from its beginning;
    what follows are options that the beginning does not have.  So an
    option stands before another when its first order comes first. *)
Theorem options_grow_at_the_end (all1 all2 : list Order) (key : FilterKey) :
  exists ext,
    getOptionsForKey (uniqueValues (all1 ++ all2)) key =
      getOptionsForKey (uniqueValues all1) key ++ ext /\
    (forall s, In s ext -> ~ In s (getOptionsForKey (uniqueValues all1) key)).
Proof.
  destruct key; cbn [getOptionsForKey unique_field uniqueValues
                     u_OID u_status u_type u_lock u_customer u_model u_designer u_days];
    try apply getUnique_app;
    try (exists []; split; [now rewrite app_nil_r | intros s []]).
  unfold allStatuses. rewrite flat_map_app. apply (Array_from_Set_app _ String.eqb_eq).
Qed.

(** X7: the options of [type], [lock], [customer], [model] and
    [designer] are the non-empty values that the field takes in the
    collection, each listed once. *)
Theorem options_are_the_nonempty_values (allOrders : list Order) (key : FilterKey) (s : string) :
  key <> K_OID -> key <> K_status -> key <> K_days ->
  (In s (getOptionsForKey (uniqueValues allOrders) key) <->
   s <> EmptyString /\
   exists o, In o allOrders /\ order_get o (key_name key) = VString s) /\
  NoDup (getOptionsForKey (uniqueValues allOrders) key).
Proof.
  intros H1 H2 H3.
  destruct key; try contradiction;
    cbn [getOptionsForKey unique_field uniqueValues
         u_type u_lock u_customer u_model u_designer key_name];
    apply getUnique_spec.
Qed.

(** An instance of the theorem above. *)
Lemma options_are_the_nonempty_values_witness :
  let o1 := mkOrder 1 "QC" "QC" "Order" "" "Acme" 3 "M1" "Dana" in
  let o2 := mkOrder 2 "QC" "QC" "Order" "L7" "Acme" 3 "M1" "Dana" in
  (In "L7" (getOptionsForKey (uniqueValues [o1; o2]) K_lock) <->
   "L7" <> EmptyString /\
   exists o, In o [o1; o2] /\ order_get o (key_name K_lock) = VString "L7") /\
  NoDup (getOptionsForKey (uniqueValues [o1; o2]) K_lock).
Proof.
  cbv zeta. apply options_are_the_nonempty_values; discriminate.
Defined.

(** X8: the status options are the values that [statusLeft] or
    [statusRight] takes in the collection, each listed once; every order
    of the collection finds both its statuses among them. *)
Theorem status_options_cover_both_sides (allOrders : list Order) (s : string) :
  (In s (getOptionsForKey (uniqueValues allOrders) K_status) <->
   exists o, In o allOrders /\ (statusLeft o = s \/ statusRight o = s)) /\
  NoDup (getOptionsForKey (uniqueValues allOrders) K_status).
Proof. apply allStatuses_spec. Qed.

(** ** Filter selections *)

Lemma includes_singleton (s : string) (v : JsVal) :
  includes [s] v = true <-> v = VString s.
Proof.
  destruct v as [ | n | t]; cbn [includes existsb]; try (split; discriminate).
  rewrite orb_false_r. split.
  - intros H. apply String.eqb_eq in H. now subst.
  - intros H. injection H as ->. apply String.eqb_refl.
Qed.

Lemma includes_exists (selected : list string) (v : JsVal) :
  includes selected v = true <-> exists s, In s selected /\ includes [s] v = true.
Proof.
  split.
  - destruct v as [ | n | t]; cbn [includes]; try discriminate.
    intros H. apply existsb_eqb_In in H. exists t. split; [assumption|].
    apply (proj2 (includes_singleton t (VString t))). reflexivity.
  - intros [s [Hin H]]. apply (proj1 (includes_singleton s v)) in H. subst v.
    now apply includes_string.
Qed.

(** A field lets an order pass when its selection is empty or one of the
    selected options does. *)
Lemma entry_matches_exists (o : Order) (key : FilterKey) (selected : list string) :
  entry_matches o (key, selected) = true <->
  selected = [] \/ exists s, In s selected /\ option_passes o key s = true.
Proof.
  unfold entry_matches. destruct (List.length selected =? 0)%nat eqn:E.
  - apply length_zero_nil in E. tauto.
  - assert (selected <> []) as Hne by (intros ->; discriminate).
    assert (forall P, (selected = [] \/ P) <-> P) as Hor by tauto. rewrite Hor.
    destruct key; cbn [option_passes]; try apply includes_exists.
    + rewrite orb_true_iff, !includes_string. split.
      * intros [H | H]; [exists (statusLeft o) | exists (statusRight o)];
          (split; [assumption|]); rewrite String.eqb_refl; [reflexivity | apply orb_true_r].
      * intros [s [Hin H]]. apply orb_true_iff in H.
        destruct H as [H | H]; apply String.eqb_eq in H; subst s; tauto.
    + unfold matchDays. rewrite E. apply existsb_exists.
Qed.

Lemma entry_matches_nil (o : Order) (key : FilterKey) : entry_matches o (key, []) = true.
Proof. reflexivity. Qed.

(** The filter is the conjunction of one field and of the filter with
    that field cleared. *)
Lemma matches_field_split (o : Order) (f : FilterState) (key : FilterKey) :
  matches o f = entry_matches o (key, get_field f key) && matches o (set_field f key []).
Proof.
  destruct f as [[oid|] st ty lo cu mo de da]; destruct key;
    unfold matches, entries;
    cbn [f_OID f_status f_type f_lock f_customer f_model f_designer f_days
         get_field set_field app forallb];
    rewrite ?entry_matches_nil;
    repeat match goal with
           | |- context [entry_matches o ?e] =>
               let b := fresh "b" in generalize (entry_matches o e); intros b
           end;
    repeat match goal with b : bool |- _ => destruct b end; reflexivity.
Qed.

Lemma get_set_field (f : FilterState) (key : FilterKey) (v : list string) :
  get_field (set_field f key v) key = v.
Proof. destruct key; reflexivity. Qed.

Lemma get_set_field_other (f : FilterState) (key key' : FilterKey) (v : list string) :
  key' <> key -> get_field (set_field f key v) key' = get_field f key'.
Proof. destruct key, key'; intros H; try reflexivity; contradiction. Qed.

Lemma set_set_field (f : FilterState) (key : FilterKey) (v w : list string) :
  set_field (set_field f key v) key w = set_field f key w.
Proof. destruct key; reflexivity. Qed.

Lemma matches_set_field (o : Order) (f : FilterState) (key : FilterKey) (v : list string) :
  matches o (set_field f key v) = entry_matches o (key, v) && matches o (set_field f key []).
Proof.
  rewrite (matches_field_split o (set_field f key v) key).
  now rewrite get_set_field, set_set_field.
Qed.

(** X9: clearing the selection of a field only adds rows: every order
    that passed the filter before passes it after [clearFilter]. *)
Theorem clearFilter_only_adds_rows
    (allOrders : list Order) (key : FilterKey) (st : AppState) (o : Order) :
  In o (filteredOrders allOrders (st_filters st)) ->
  In o (filteredOrders allOrders (st_filters (clearFilter key st))).
Proof.
  unfold filteredOrders. rewrite !filter_In. intros [Hin Hm]. split; [assumption|].
  cbn [clearFilter st_filters setPage setFilters].
  rewrite (matches_field_split o (st_filters st) key) in Hm.
  apply andb_true_iff in Hm. tauto.
Qed.

(** An instance of the theorem above. *)
Lemma clearFilter_only_adds_rows_witness :
  let o := mkOrder 1 "QC" "QC" "Order" "" "Acme" 3 "M1" "Dana" in
  let st := setFilters (mkFilterState None [] [] [] ["Acme"] [] [] []) (initial_state empty_storage) in
  In o (filteredOrders [o] (st_filters (clearFilter K_customer st))).
Proof.
  cbv zeta. apply clearFilter_only_adds_rows. now left.
Defined.

Lemma toggled_selection (sel : list string) (opt : string) :
  let current := Array_from_Set String.eqb sel in
  let sel' :=
    if Set_has String.eqb current opt
    then Set_delete String.eqb current opt
    else Set_add String.eqb current opt in
  (In opt sel' <-> ~ In opt sel) /\
  (forall s, s <> opt -> (In s sel' <-> In s sel)) /\
  NoDup sel'.
Proof.
  cbv zeta.
  pose proof (Array_from_Set_In _ String.eqb_eq sel) as Hin.
  pose proof (Array_from_Set_NoDup _ String.eqb_eq sel) as Hnd.
  destruct (Set_has String.eqb (Array_from_Set String.eqb sel) opt) eqn:E.
  - apply (Set_has_In _ String.eqb_eq) in E. apply Hin in E.
    unfold Set_delete. split; [|split].
    + split; [|intros H; contradiction].
      intros H. apply filter_In in H. destruct H as [_ H].
      rewrite String.eqb_refl in H. discriminate.
    + intros s Hs. rewrite filter_In, Hin. split; [tauto|].
      intros H. split; [assumption|].
      destruct (String.eqb opt s) eqn:E'; [apply String.eqb_eq in E'; congruence | reflexivity].
    + now apply NoDup_filter.
  - assert (~ In opt sel) as Hn.
    { intros H. apply Hin in H. apply (Set_has_In _ String.eqb_eq) in H. congruence. }
    unfold Set_add. rewrite E. split; [|split].
    + split; [intros _; exact Hn|]. intros _. apply in_or_app. right. now left.
    + intros s Hs. rewrite in_app_iff, Hin. cbn [In]. split; [|tauto].
      intros [H | [H | []]]; [assumption | congruence].
    + apply NoDup_app; [assumption | repeat constructor; intros [] |].
      intros a Ha [<- | []]. apply Hn. now apply Hin.
Qed.

Lemma handleToggleOption_members (key : FilterKey) (opt : string) (st : AppState) :
  (In opt (get_field (st_filters (handleToggleOption key opt st)) key) <->
   ~ In opt (get_field (st_filters st) key)) /\
  (forall s, s <> opt ->
     (In s (get_field (st_filters (handleToggleOption key opt st)) key) <->
      In s (get_field (st_filters st) key))).
Proof.
  unfold handleToggleOption. cbn [st_filters setPage setFilters].
  rewrite get_set_field.
  destruct (toggled_selection (get_field (st_filters st) key) opt) as [H1 [H2 _]].
  split; assumption.
Qed.

(** X10: toggling an option of a field puts it into the selection when
    it was out and takes it out when it was in; the other options of the
    field stay selected or unselected as they were, no option is listed
    twice afterwards, and the selections of the other fields are not
    touched. *)
Theorem handleToggleOption_flips_one_option (key : FilterKey) (opt : string) (st : AppState) :
  let before := get_field (st_filters st) key in
  let after := get_field (st_filters (handleToggleOption key opt st)) key in
  (In opt after <-> ~ In opt before) /\
  (forall s, s <> opt -> (In s after <-> In s before)) /\
  NoDup after /\
  (forall key', key' <> key ->
     get_field (st_filters (handleToggleOption key opt st)) key' =
     get_field (st_filters st) key').
Proof.
  cbv zeta. unfold handleToggleOption. cbn [st_filters setPage setFilters].
  rewrite get_set_field.
  destruct (toggled_selection (get_field (st_filters st) key) opt) as [H1 [H2 H3]].
  cbv zeta in H1, H2, H3.
  split; [exact H1|]. split; [exact H2|]. split; [exact H3|].
  intros key' Hk. now apply get_set_field_other.
Qed.

Lemma entry_matches_same_members (o : Order) (key : FilterKey) (sel sel' : list string) :
  (forall s, In s sel <-> In s sel') ->
  entry_matches o (key, sel) = entry_matches o (key, sel').
Proof.
  intros H.
  assert (sel = [] <-> sel' = []) as Hnil.
  { split; intros ->.
    - destruct sel' as [|s l]; [reflexivity|]. exfalso. apply (H s). now left.
    - destruct sel as [|s l]; [reflexivity|]. exfalso. apply (H s). now left. }
  destruct (entry_matches o (key, sel)) eqn:E1, (entry_matches o (key, sel')) eqn:E2;
    try reflexivity; exfalso.
  - apply entry_matches_exists in E1.
    assert (entry_matches o (key, sel') = true); [|congruence].
    apply entry_matches_exists. destruct E1 as [E1 | [s [Hs Hp]]]; [tauto|].
    right. exists s. split; [now apply H | assumption].
  - apply entry_matches_exists in E2.
    assert (entry_matches o (key, sel) = true); [|congruence].
    apply entry_matches_exists. destruct E2 as [E2 | [s [Hs Hp]]]; [tauto|].
    right. exists s. split; [now apply H | assumption].
Qed.

(** X11: toggling the same option twice gives back the rows shown
    before (the option may have moved to the end of the selection). *)
Theorem toggle_twice_same_rows
    (allOrders : list Order) (key : FilterKey) (opt : string) (st : AppState) :
  filteredOrders allOrders
    (st_filters (handleToggleOption key opt (handleToggleOption key opt st))) =
  filteredOrders allOrders (st_filters st).
Proof.
  unfold filteredOrders. apply filter_ext. intros o.
  pose proof (handleToggleOption_members key opt st) as [H1 H2].
  pose proof (handleToggleOption_members key opt (handleToggleOption key opt st)) as [H3 H4].
  set (st2 := handleToggleOption key opt (handleToggleOption key opt st)) in *.
  rewrite (matches_field_split o (st_filters st2) key),
          (matches_field_split o (st_filters st) key).
  f_equal.
  - apply entry_matches_same_members. intros s.
    destruct (string_dec s opt) as [-> | Hne].
    + rewrite H3, H1. destruct (in_dec string_dec opt (get_field (st_filters st) key)); tauto.
    + rewrite (H4 s Hne). apply (H2 s Hne).
  - unfold st2, handleToggleOption. cbn [st_filters setPage setFilters].
    now rewrite !set_set_field.
Qed.

(** X12: selecting one more option in a field whose selection is not
    empty only adds rows. *)
Theorem toggle_on_only_adds_rows
    (allOrders : list Order) (key : FilterKey) (opt : string) (st : AppState) (o : Order) :
  get_field (st_filters st) key <> [] ->
  ~ In opt (get_field (st_filters st) key) ->
  In o (filteredOrders allOrders (st_filters st)) ->
  In o (filteredOrders allOrders (st_filters (handleToggleOption key opt st))).
Proof.
  intros Hne Hopt. unfold filteredOrders. rewrite !filter_In. intros [Hin Hm].
  split; [assumption|].
  pose proof (handleToggleOption_members key opt st) as [_ H2].
  rewrite (matches_field_split o (st_filters st) key) in Hm.
  apply andb_true_iff in Hm. destruct Hm as [He Hrest].
  rewrite (matches_field_split o _ key). apply andb_true_iff. split.
  - apply entry_matches_exists in He. apply entry_matches_exists.
    destruct He as [He | [s [Hs Hp]]]; [contradiction|].
    right. exists s. split; [|assumption].
    apply H2; [intros -> |]; tauto.
  - unfold handleToggleOption. cbn [st_filters setPage setFilters].
    now rewrite set_set_field.
Qed.

(** An instance of the theorem above. *)
Lemma toggle_on_only_adds_rows_witness :
  let o := mkOrder 1 "QC" "QC" "Order" "" "Acme" 3 "M1" "Dana" in
  let st := setFilters (mkFilterState None [] [] [] ["Acme"] [] [] []) (initial_state empty_storage) in
  In o (filteredOrders [o] (st_filters (handleToggleOption K_customer "Zed" st))).
Proof.
  cbv zeta. apply toggle_on_only_adds_rows.
  - discriminate.
  - cbn. intros [H | []]. discriminate.
  - now left.
Defined.

(** X13: "Select all" on the status column lets every order of the
    collection pass the status field: for these orders the filter is then
    the same as with the status selection cleared. *)
Theorem select_all_statuses_is_no_restriction
    (allOrders : list Order) (st : AppState) (o : Order) :
  In o allOrders ->
  matches o (st_filters
               (selectAll K_status (getOptionsForKey (uniqueValues allOrders) K_status) st)) =
  matches o (st_filters (clearFilter K_status st)).
Proof.
  intros Hin. cbn [selectAll clearFilter st_filters setPage setFilters].
  rewrite matches_set_field.
  assert (entry_matches o (K_status, getOptionsForKey (uniqueValues allOrders) K_status) = true)
    as ->; [|reflexivity].
  apply entry_matches_status. right. left.
  apply allStatuses_spec. exists o. tauto.
Qed.

(** An instance of the theorem above. *)
Lemma select_all_statuses_witness :
  let o := mkOrder 1 "" "QC" "Order" "" "Acme" 3 "M1" "Dana" in
  let st := initial_state empty_storage in
  matches o (st_filters (selectAll K_status (getOptionsForKey (uniqueValues [o]) K_status) st)) =
  matches o (st_filters (clearFilter K_status st)).
Proof.
  cbv zeta. apply select_all_statuses_is_no_restriction. now left.
Defined.

Lemma getUnique_nil_iff (allOrders : list Order) (key : string) :
  getUnique allOrders key = [] <->
  forall o s, In o allOrders -> order_get o key = VString s -> s = EmptyString.
Proof.
  split.
  - intros H o s Hin Hget. destruct (string_dec s EmptyString) as [-> | Hne]; [reflexivity|].
    assert (In s (getUnique allOrders key)) as Hs.
    { apply getUnique_spec. split; [assumption|]. now exists o. }
    rewrite H in Hs. contradiction.
  - intros H. destruct (getUnique allOrders key) as [|s l] eqn:E; [reflexivity|]. exfalso.
    assert (In s (getUnique allOrders key)) as Hs by (rewrite E; now left).
    apply getUnique_spec in Hs. destruct Hs as [Hne [o [Hin Hget]]].
    apply Hne. now apply (H o).
Qed.

Lemma plain_field_all_selected (allOrders : list Order) (o : Order) (key : FilterKey)
    (v : string) :
  key <> K_days -> key <> K_status -> In o allOrders ->
  order_get o (key_name key) = VString v ->
  (forall o', exists v', order_get o' (key_name key) = VString v') ->
  entry_matches o (key, getUnique allOrders (key_name key)) = true <->
  v <> EmptyString \/
  (forall o', In o' allOrders -> order_get o' (key_name key) = VString EmptyString).
Proof.
  intros Hd Hs Hin Hget Hstr.
  rewrite (entry_matches_plain o key _ v Hd Hs Hget), getUnique_nil_iff.
  split.
  - intros [H | H].
    + right. intros o' Ho'. destruct (Hstr o') as [v' Hv'].
      rewrite Hv'. f_equal. now apply (H o').
    + left. apply getUnique_spec in H. tauto.
  - intros [H | H].
    + right. apply getUnique_spec. split; [assumption|]. now exists o.
    + left. intros o' s Ho' Hs'. rewrite (H o' Ho') in Hs'. now injection Hs' as <-.
Qed.

Lemma matchDays_all_buckets (value : Z) :
  matchDays value DAYS_FILTER_OPTIONS = true <-> value < 60.
Proof.
  change (matchDays value DAYS_FILTER_OPTIONS)
    with ((value <? 5) || ((value <? 15) || ((value <? 30) || ((value <? 60) || false)))).
  destruct (Z.ltb_spec value 5), (Z.ltb_spec value 15), (Z.ltb_spec value 30),
           (Z.ltb_spec value 60); cbn; split; intros; try reflexivity; try discriminate; lia.
Qed.

(** X14: what "All" shows.  After [handleAllSelect] an order of the
    collection passes the filter exactly when it is less than 60 days old
    and, for each of [type], [lock], [customer], [model] and [designer],
    its value is not empty, unless that field is empty in every order. *)
Theorem handleAllSelect_hides_old_and_blank
    (allOrders : list Order) (st : AppState) (o : Order) :
  In o allOrders ->
  matches o (st_filters (handleAllSelect (uniqueValues allOrders) st)) = true <->
  daysSinceOrder o < 60 /\
  (type o <> EmptyString \/ forall o', In o' allOrders -> type o' = EmptyString) /\
  (lock o <> EmptyString \/ forall o', In o' allOrders -> lock o' = EmptyString) /\
  (customer o <> EmptyString \/ forall o', In o' allOrders -> customer o' = EmptyString) /\
  (model o <> EmptyString \/ forall o', In o' allOrders -> model o' = EmptyString) /\
  (designer o <> EmptyString \/ forall o', In o' allOrders -> designer o' = EmptyString).
Proof.
  intros Hin. cbn [handleAllSelect st_filters setPage setFilters uniqueValues
                   u_status u_type u_lock u_customer u_model u_designer].
  unfold matches, entries. cbn [f_OID f_status f_type f_lock f_customer f_model f_designer
                                f_days app forallb].
  rewrite !andb_true_r, !andb_true_iff.
  assert (entry_matches o (K_status, allStatuses allOrders) = true) as Hst.
  { apply entry_matches_status. right. left. apply allStatuses_spec. exists o. tauto. }
  assert (entry_matches o (K_days, DAYS_FILTER_OPTIONS) = true <-> daysSinceOrder o < 60) as Hdays.
  { apply matchDays_all_buckets. }
  rewrite Hst, Hdays.
  rewrite (plain_field_all_selected allOrders o K_type (type o)); try discriminate; try easy;
    [|intros o'; eexists; reflexivity].
  rewrite (plain_field_all_selected allOrders o K_lock (lock o)); try discriminate; try easy;
    [|intros o'; eexists; reflexivity].
  rewrite (plain_field_all_selected allOrders o K_customer (customer o)); try discriminate; try easy;
    [|intros o'; eexists; reflexivity].
  rewrite (plain_field_all_selected allOrders o K_model (model o)); try discriminate; try easy;
    [|intros o'; eexists; reflexivity].
  rewrite (plain_field_all_selected allOrders o K_designer (designer o)); try discriminate; try easy;
    [|intros o'; eexists; reflexivity].
  cbn [order_get key_name String.eqb Ascii.eqb Bool.eqb].
  assert (forall (g : Order -> string),
            (forall o', In o' allOrders -> VString (g o') = VString EmptyString) <->
            (forall o', In o' allOrders -> g o' = EmptyString)) as Hv.
  { intros g. split; intros H o' Ho'; specialize (H o' Ho'); congruence. }
  rewrite !Hv. tauto.
Qed.

(** An instance of the theorem above. *)
Lemma handleAllSelect_witness :
  let o1 := mkOrder 1 "QC" "QC" "Order" "" "Acme" 3 "M1" "Dana" in
  let o2 := mkOrder 2 "QC" "QC" "Order" "L7" "Acme" 3 "M1" "Dana" in
  matches o1 (st_filters (handleAllSelect (uniqueValues [o1; o2]) (initial_state empty_storage)))
    = false.
Proof.
  cbv zeta.
  destruct (matches (mkOrder 1 "QC" "QC" "Order" "" "Acme" 3 "M1" "Dana")
              (st_filters
                 (handleAllSelect
                    (uniqueValues
                       [ mkOrder 1 "QC" "QC" "Order" "" "Acme" 3 "M1" "Dana";
                         mkOrder 2 "QC" "QC" "Order" "L7" "Acme" 3 "M1" "Dana" ])
                    (initial_state empty_storage)))) eqn:E; [|reflexivity].
  apply (proj1 (handleAllSelect_hides_old_and_blank
                  [ mkOrder 1 "QC" "QC" "Order" "" "Acme" 3 "M1" "Dana";
                    mkOrder 2 "QC" "QC" "Order" "L7" "Acme" 3 "M1" "Dana" ]
                  (initial_state empty_storage)
                  (mkOrder 1 "QC" "QC" "Order" "" "Acme" 3 "M1" "Dana")
                  (or_introl eq_refl))) in E.
  destruct E as [_ [_ [[H | H] _]]].
  - exfalso. apply H. reflexivity.
  - specialize (H _ (or_intror (or_introl eq_refl))). discriminate.
Defined.

(** X15: "Clear Selection" empties every selection, forgets the active
    preset in the state and in the store, and the table then holds every
    order of the collection. *)
Theorem clearSelection_shows_everything
    (allOrders : list Order) (st : AppState) :
  filteredOrders allOrders (st_filters (clearSelection st)) = allOrders /\
  (forall key, get_field (st_filters (clearSelection st)) key = []) /\
  st_activePresetName (clearSelection st) = None /\
  getItem (st_localStorage (clearSelection st)) "active-order-preset" = None /\
  (forall k, k <> "active-order-preset" ->
     getItem (st_localStorage (clearSelection st)) k = getItem (st_localStorage st) k) /\
  st_presets (clearSelection st) = st_presets st.
Proof.
  split; [apply filteredOrders_defaultFilterState|].
  split; [intros key; destruct key; reflexivity|].
  split; [reflexivity|].
  split; [reflexivity|].
  split; [|reflexivity].
  intros k Hk. cbn [clearSelection st_localStorage setActivePresetName setStorage setFilters].
  unfold getItem, removeItem.
  destruct (String.eqb k "active-order-preset") eqn:E; [|reflexivity].
  apply String.eqb_eq in E. contradiction.
Qed.

(** ** Sort buttons *)

Lemma sort_value_defined (k : string) (o : Order) :
  In k validKeys -> sort_value k o <> VUndefined.
Proof.
  cbn. intros H.
  repeat (destruct H as [<- | H]; [vm_compute; discriminate|]). contradiction.
Qed.

(** X16: a click on the sort button of a column sorts by a key that the
    comparator has a value for and that the start-up accepts back from the
    store; a click on another column than the sorted one starts
    ascending, a second click on the same column turns to descending, a
    third one back; filters, page, presets and store are not touched. *)
Theorem handleSortClick_cycles (colKey : string) (st : AppState) :
  In colKey (map fst columns) ->
  let st1 := handleSortClick colKey st in
  In (st_sortKey st1) validKeys /\
  (forall o, sort_value (st_sortKey st1) o <> VUndefined) /\
  st_sortKey st1 = sortableKey colKey /\
  (st_sortKey st <> sortableKey colKey -> st_sortDirection st1 = asc) /\
  (st_sortKey st = sortableKey colKey ->
     st_sortDirection st1 = opposite (st_sortDirection st)) /\
  handleSortClick colKey (handleSortClick colKey st1) = st1 /\
  st_filters st1 = st_filters st /\ st_page st1 = st_page st /\
  st_presets st1 = st_presets st /\ st_localStorage st1 = st_localStorage st /\
  st_activePresetName st1 = st_activePresetName st.
Proof.
  intros Hcol. cbv zeta.
  assert (In (sortableKey colKey) validKeys) as Hvalid.
  { cbn in Hcol. repeat (destruct Hcol as [<- | Hcol]; [cbn; tauto|]). contradiction. }
  assert (st_sortKey (handleSortClick colKey st) = sortableKey colKey) as Hkey.
  { unfold handleSortClick.
    destruct (String.eqb (st_sortKey st) (sortableKey colKey)) eqn:E; [|reflexivity].
    now apply String.eqb_eq in E. }
  split; [now rewrite Hkey|].
  split; [intros o; rewrite Hkey; now apply sort_value_defined|].
  split; [exact Hkey|].
  split.
  { intros H. unfold handleSortClick. apply String.eqb_neq in H. now rewrite H. }
  split.
  { intros H. unfold handleSortClick. apply String.eqb_eq in H. now rewrite H. }
  split.
  { assert (Hflip : forall s, st_sortKey s = sortableKey colKey ->
              handleSortClick colKey s = setSortDirection (opposite (st_sortDirection s)) s).
    { intros s Hs. unfold handleSortClick. now rewrite Hs, String.eqb_refl. }
    rewrite (Hflip _ Hkey). rewrite (Hflip (setSortDirection _ _) Hkey).
    destruct (handleSortClick colKey st) as [f k d a lo pg op nm ps ls w].
    now destruct d. }
  unfold handleSortClick.
  destruct (String.eqb (st_sortKey st) (sortableKey colKey)); repeat split; reflexivity.
Qed.

(** An instance of the theorem above. *)
Lemma handleSortClick_witness :
  let st1 := handleSortClick "days" (initial_state empty_storage) in
  st_sortKey st1 = "daysSinceOrder" /\ st_sortDirection st1 = asc /\
  st_sortDirection (handleSortClick "days" st1) = desc.
Proof.
  cbv zeta.
  destruct (handleSortClick_cycles "days" (initial_state empty_storage)) as [_ [_ [H _]]].
  - cbn. tauto.
  - split; [exact H|]. split; reflexivity.
Defined.

(** ** Presets *)

(** X17: [deletePreset] removes every preset of the given name and no
    other, keeps the order of the rest, writes the new list to the store,
    and never fails: with a name that is not in the list it changes
    nothing in the list.  The active preset is forgotten, in the state and
    in the store, exactly when the store names the deleted preset as
    active. *)
Theorem deletePreset_removes_name_and_pointer (n : string) (st : AppState) :
  let st' := deletePreset n st in
  st_presets st' = filter (fun p => negb (String.eqb (name p) n)) (st_presets st) /\
  (forall p, In p (st_presets st') <-> In p (st_presets st) /\ name p <> n) /\
  (~ In n (map name (st_presets st)) -> st_presets st' = st_presets st) /\
  presets_in_sync st' /\
  match getItem (st_localStorage st) "active-order-preset" with
  | Some active =>
      if String.eqb active n
      then st_activePresetName st' = None /\
           getItem (st_localStorage st') "active-order-preset" = None
      else st_activePresetName st' = st_activePresetName st /\
           getItem (st_localStorage st') "active-order-preset" = Some active
  | None =>
      st_activePresetName st' = st_activePresetName st /\
      getItem (st_localStorage st') "active-order-preset" = None
  end.
Proof.
  cbv zeta.
  assert (Hps : st_presets (deletePreset n st) =
                filter (fun p => negb (String.eqb (name p) n)) (st_presets st)).
  { unfold deletePreset. cbn [st_localStorage setStorage setPresets].
    rewrite getItem_setItem_other by discriminate.
    destruct (getItem (st_localStorage st) "active-order-preset") as [a|]; [|reflexivity].
    destruct (String.eqb a n); reflexivity. }
  split; [exact Hps|]. split.
  { intros p. rewrite Hps, filter_In. split; intros [Hin H]; (split; [assumption|]).
    - destruct (String.eqb (name p) n) eqn:E; [discriminate | now apply String.eqb_neq].
    - apply String.eqb_neq in H. now rewrite H. }
  split.
  { intros Hn. rewrite Hps. clear Hps. induction (st_presets st) as [|p l IH]; [reflexivity|].
    cbn [filter]. cbn [map In] in Hn.
    destruct (String.eqb (name p) n) eqn:E; [apply String.eqb_eq in E; tauto|].
    cbn [negb]. f_equal. apply IH. tauto. }
  split.
  { unfold presets_in_sync. rewrite Hps. unfold deletePreset.
    cbn [st_localStorage setStorage setPresets].
    rewrite getItem_setItem_other by discriminate.
    destruct (getItem (st_localStorage st) "active-order-preset") as [a|].
    - destruct (String.eqb a n);
        cbn [st_localStorage setStorage setActivePresetName setPresets].
      + unfold getItem, removeItem, setItem. reflexivity.
      + apply getItem_setItem_same.
    - apply getItem_setItem_same. }
  unfold deletePreset. cbn [st_localStorage setStorage setPresets].
  rewrite getItem_setItem_other by discriminate.
  destruct (getItem (st_localStorage st) "active-order-preset") as [a|] eqn:Ha.
  - destruct (String.eqb a n); split; try reflexivity.
    cbn [st_localStorage setStorage setPresets].
    rewrite getItem_setItem_other by discriminate. exact Ha.
  - split; [reflexivity|]. cbn [st_localStorage setStorage setPresets].
    rewrite getItem_setItem_other by discriminate. exact Ha.
Qed.

Lemma savePreset_cases (st st' : AppState) :
  savePreset st = Normal st' ->
  st' = st \/
  st' =
    (let updated :=
       filter (fun p => negb (String.eqb (name p) (st_name st))) (st_presets st) ++
       [mkPreset (st_name st) (st_filters st) (st_sortKey st) (st_sortDirection st)] in
     setName EmptyString
       (setStorage
          (setItem (st_localStorage st) "order-presets" (stringify (json_of_presets updated)))
          (setPresets updated st))).
Proof.
  unfold savePreset. destruct (String.eqb (trim (st_name st)) EmptyString);
    intros H; injection H as <-; [now left | now right].
Qed.

(** X18: the preset list in memory and the list in the store agree after
    every save that is accepted and after every delete; loading a preset,
    clearing the selection, toggling options, sorting and the write of the
    session values leave them in agreement; and a preset manager mounted
    on such a store starts with exactly that list. *)
Theorem presets_stay_in_sync (st : AppState) :
  (forall st', savePreset st = Normal st' -> st' = st \/ presets_in_sync st') /\
  (forall n, presets_in_sync (deletePreset n st)) /\
  (presets_in_sync st ->
     (forall p, presets_in_sync (loadPreset p st)) /\
     presets_in_sync (clearSelection st) /\
     presets_in_sync (persist st) /\
     (forall key opt, presets_in_sync (handleToggleOption key opt st)) /\
     (forall c, presets_in_sync (handleSortClick c st)) /\
     (forall st', savePreset st = Normal st' -> presets_in_sync st') /\
     loadPresets (initial_state (st_localStorage st)) =
       Normal (setPresets (st_presets st) (initial_state (st_localStorage st)))).
Proof.
  split.
  { intros st' H. apply savePreset_cases in H. destruct H as [-> | ->]; [now left|].
    right. cbv zeta. unfold presets_in_sync.
    cbn [st_localStorage st_presets setName setStorage setPresets].
    apply getItem_setItem_same. }
  split.
  { intros n. unfold presets_in_sync, deletePreset.
    cbn [st_localStorage setStorage setPresets].
    rewrite getItem_setItem_other by discriminate.
    destruct (getItem (st_localStorage st) "active-order-preset") as [a|];
      [destruct (String.eqb a n)|];
      cbn [st_localStorage st_presets setStorage setActivePresetName setPresets];
      apply getItem_setItem_same. }
  intros Hs. unfold presets_in_sync in *.
  split.
  { intros p. cbn [loadPreset st_localStorage st_presets setOpen setStorage setActivePresetName
                   setSortDirection setSortKey setFilters].
    rewrite getItem_setItem_other by discriminate. exact Hs. }
  split.
  { cbn [clearSelection st_localStorage st_presets setStorage setActivePresetName setFilters].
    unfold getItem, removeItem. cbn. exact Hs. }
  split.
  { unfold persist. cbn [st_localStorage st_presets setStorage].
    rewrite !getItem_setItem_other by discriminate. exact Hs. }
  split; [intros key opt; exact Hs|].
  split.
  { intros c. unfold handleSortClick.
    destruct (String.eqb (st_sortKey st) (sortableKey c)); exact Hs. }
  split.
  { intros st' H. apply savePreset_cases in H. destruct H as [-> | ->]; [exact Hs|].
    cbv zeta. cbn [st_localStorage st_presets setName setStorage setPresets].
    apply getItem_setItem_same. }
  apply loadPresets_of_written. exact Hs.
Qed.

Lemma NoDup_map_filter {A B : Type} (g : A -> B) (P : A -> bool) (l : list A) :
  NoDup (map g l) -> NoDup (map g (filter P l)).
Proof.
  induction l as [|x l IH]; intros H; [constructor|].
  cbn [map] in H. inversion H as [|? ? Hx Hl]; subst. specialize (IH Hl).
  cbn [filter]. destruct (P x); [|exact IH].
  cbn [map]. constructor; [|exact IH].
  intros Hin. apply Hx. apply in_map_iff in Hin. destruct Hin as [y [Hy Hin]].
  apply filter_In in Hin. rewrite <- Hy. apply in_map. tauto.
Qed.

(** X19: preset names stay distinct: when no two presets of the list
    have the same name, this is still so after [savePreset] and after
    [deletePreset]. *)
Theorem preset_names_stay_distinct (st : AppState) :
  NoDup (map name (st_presets st)) ->
  (forall st', savePreset st = Normal st' -> NoDup (map name (st_presets st'))) /\
  (forall n, NoDup (map name (st_presets (deletePreset n st)))).
Proof.
  intros Hn. split.
  - intros st' H. apply savePreset_cases in H. destruct H as [-> | ->]; [exact Hn|].
    cbv zeta. cbn [st_presets setName setStorage setPresets].
    rewrite map_app. apply NoDup_app.
    + now apply NoDup_map_filter.
    + repeat constructor. intros [].
    + intros a Ha [<- | []]. cbn [name] in Ha.
      apply in_map_iff in Ha. destruct Ha as [p [Hp Hin]].
      apply filter_In in Hin. destruct Hin as [_ Hin].
      rewrite Hp, String.eqb_refl in Hin. discriminate.
  - intros n.
    assert (st_presets (deletePreset n st) =
            filter (fun p => negb (String.eqb (name p) n)) (st_presets st)) as ->.
    { unfold deletePreset. cbn [st_localStorage setStorage setPresets].
      rewrite getItem_setItem_other by discriminate.
      destruct (getItem (st_localStorage st) "active-order-preset") as [a|]; [|reflexivity].
      destruct (String.eqb a n); reflexivity. }
    now apply NoDup_map_filter.
Qed.

(** An instance of the theorem above. *)
Lemma preset_names_stay_distinct_witness :
  let a := mkPreset "a" defaultFilterState "oid" asc in
  let b := mkPreset "b" defaultFilterState "oid" desc in
  let st := setName "b" (setPresets [a; b] (initial_state empty_storage)) in
  (forall st', savePreset st = Normal st' -> NoDup (map name (st_presets st'))) /\
  (forall n, NoDup (map name (st_presets (deletePreset n st)))).
Proof.
  cbv zeta. apply preset_names_stay_distinct.
  cbn. repeat constructor; cbn; intros H;
    repeat (destruct H as [H | H]; [discriminate|]); exact H.
Defined.

(** ** Start-up of the page *)

Lemma stringify_FilterState_not_empty (f : FilterState) :
  String.eqb (stringify (json_of_FilterState f)) EmptyString = false.
Proof. reflexivity. Qed.

Lemma HomePage_mount_active_preset
    (allOrders : list Order) (st : AppState) (ps : list Preset) (n : string) (p : Preset) :
  getItem (st_localStorage st) "order-presets" = Some (stringify (json_of_presets ps)) ->
  getItem (st_localStorage st) "active-order-preset" = Some n ->
  n <> EmptyString ->
  find (fun q => String.eqb (name q) n) ps = Some p ->
  HomePage_mount allOrders st =
  Normal
    (setLoading false
       (setActivePresetName (Some (name p))
          (setSortDirection (sortDirection p)
             (setSortKey (sortKey p) (setFilters (filters p) st))))).
Proof.
  intros Hps Han Hn Hfind. unfold HomePage_mount, load_saved.
  rewrite Hps, Han. unfold truthy. rewrite stringify_presets_not_empty.
  apply String.eqb_neq in Hn. rewrite Hn. cbn [negb andb].
  pose proof (presets_round_trip ps) as R.
  destruct (JSON_parse (stringify (json_of_presets ps))) as [v|]; [|discriminate].
  now rewrite R, Hfind.
Qed.

Lemma HomePage_mount_no_active (allOrders : list Order) (st : AppState) :
  getItem (st_localStorage st) "active-order-preset" = None \/
  getItem (st_localStorage st) "order-presets" = None ->
  HomePage_mount allOrders st =
  match restore_session allOrders st with
  | Normal st' => Normal (setLoading false st')
  | Throws _ =>
      Normal (setLoading false (console_warn "Failed to load saved filters or presets" st))
  | IllTyped => IllTyped
  end.
Proof.
  intros H. unfold HomePage_mount, load_saved.
  assert (truthy (getItem (st_localStorage st) "order-presets") &&
          truthy (getItem (st_localStorage st) "active-order-preset") = false) as ->.
  { destruct H as [-> | ->]; [apply andb_false_r | reflexivity]. }
  reflexivity.
Qed.

(** X20: a stored active preset wins at start-up: when the store names
    an active preset that is in the stored list, the page starts with the
    filters and the sort of that preset and shows it as active, whatever
    session values the store holds besides and whatever the collection
    is. *)
Theorem active_preset_wins_at_startup
    (allOrders : list Order) (st : AppState) (ps : list Preset) (n : string) (p : Preset) :
  getItem (st_localStorage st) "order-presets" = Some (stringify (json_of_presets ps)) ->
  getItem (st_localStorage st) "active-order-preset" = Some n ->
  n <> EmptyString ->
  find (fun q => String.eqb (name q) n) ps = Some p ->
  exists st',
    HomePage_mount allOrders st = Normal st' /\
    st_filters st' = filters p /\ st_sortKey st' = sortKey p /\
    st_sortDirection st' = sortDirection p /\
    st_activePresetName st' = Some n /\
    st_loading st' = false /\ st_warnings st' = st_warnings st.
Proof.
  intros Hps Han Hn Hfind. eexists.
  split; [apply (HomePage_mount_active_preset allOrders st ps n p); assumption|].
  repeat split; try reflexivity.
  cbn. apply find_some in Hfind. destruct Hfind as [_ H]. apply String.eqb_eq in H. now rewrite H.
Qed.

(** An instance of the theorem above. *)
Lemma active_preset_wins_witness :
  let p := mkPreset "Urgent" (mkFilterState None ["QC"] [] [] [] [] [] ["<5"]) "status" desc in
  let ls :=
    setItem
      (setItem
         (setItem empty_storage "order-presets" (stringify (json_of_presets [p])))
         "active-order-preset" "Urgent")
      "order-filters" "{" in
  exists st',
    HomePage_mount [] (initial_state ls) = Normal st' /\
    st_filters st' = filters p /\ st_sortKey st' = sortKey p /\
    st_sortDirection st' = sortDirection p /\
    st_activePresetName st' = Some "Urgent" /\
    st_loading st' = false /\ st_warnings st' = [].
Proof.
  intros p ls.
  apply (active_preset_wins_at_startup [] (initial_state ls) [p] "Urgent" p).
  - reflexivity.
  - reflexivity.
  - discriminate.
  - reflexivity.
Defined.

Lemma existsb_validKeys (k : string) : In k validKeys -> existsb (String.eqb k) validKeys = true.
Proof. intros H. now apply existsb_eqb_In. Qed.

(** X21: the session comes back.  With no active preset in the store
    and an order collection that is not empty, the page started on the
    store that [persist] wrote shows the same filters, sort key and sort
    direction as before, for every sort key that the table can set. *)
Theorem session_survives_reload (allOrders : list Order) (st : AppState) :
  allOrders <> [] ->
  In (st_sortKey st) validKeys ->
  getItem (st_localStorage st) "active-order-preset" = None ->
  exists st',
    HomePage_mount allOrders (initial_state (st_localStorage (persist st))) = Normal st' /\
    st_filters st' = st_filters st /\ st_sortKey st' = st_sortKey st /\
    st_sortDirection st' = st_sortDirection st /\
    st_activePresetName st' = None /\ st_loading st' = false /\ st_warnings st' = [].
Proof.
  intros Hne Hkey Hact.
  set (ls := st_localStorage (persist st)).
  assert (getItem ls "active-order-preset" = None) as Ha.
  { unfold ls, persist. cbn [st_localStorage setStorage].
    rewrite !getItem_setItem_other by discriminate. exact Hact. }
  assert (getItem ls "order-filters" = Some (stringify (json_of_FilterState (st_filters st))))
    as Hf.
  { unfold ls, persist. cbn [st_localStorage setStorage].
    rewrite !getItem_setItem_other by discriminate. apply getItem_setItem_same. }
  assert (getItem ls "order-sortKey" = Some (st_sortKey st)) as Hk.
  { unfold ls, persist. cbn [st_localStorage setStorage].
    rewrite getItem_setItem_other by discriminate. apply getItem_setItem_same. }
  assert (getItem ls "order-sortDirection" = Some (direction_name (st_sortDirection st))) as Hd.
  { unfold ls, persist. cbn [st_localStorage setStorage]. apply getItem_setItem_same. }
  rewrite HomePage_mount_no_active by (left; exact Ha).
  unfold restore_session. destruct allOrders as [|o rest]; [contradiction|].
  cbn [st_localStorage initial_state]. rewrite Hf, Hk, Hd.
  rewrite stringify_FilterState_not_empty.
  pose proof (FilterState_round_trip (st_filters st)) as R.
  destruct (JSON_parse (stringify (json_of_FilterState (st_filters st)))) as [v|];
    [|discriminate].
  rewrite R, (existsb_validKeys _ Hkey), direction_of_name_of.
  eexists. split; [reflexivity|]. repeat split; reflexivity.
Qed.

(** An instance of the theorem above. *)
Lemma session_survives_reload_witness :
  let o := mkOrder 1 "QC" "QC" "Order" "" "Acme" 3 "M1" "Dana" in
  let st :=
    setSortDirection desc
      (setSortKey "customer"
         (setFilters (mkFilterState None ["QC"] [] [] ["Acme"] [] [] ["<15"])
            (initial_state empty_storage))) in
  exists st',
    HomePage_mount [o] (initial_state (st_localStorage (persist st))) = Normal st' /\
    st_filters st' = st_filters st /\ st_sortKey st' = st_sortKey st /\
    st_sortDirection st' = st_sortDirection st /\
    st_activePresetName st' = None /\ st_loading st' = false /\ st_warnings st' = [].
Proof.
  cbv zeta. apply session_survives_reload.
  - discriminate.
  - cbn. tauto.
  - reflexivity.
Defined.

(** The [try] block of the first effect, by what the look-up of the
    active preset finds. *)
Lemma load_saved_lookup (allOrders : list Order) (st : AppState) :
  load_saved allOrders st =
  match lookup_active st with
  | ActiveFound active =>
      inl (Normal
        (setLoading false
          (setActivePresetName (Some (name active))
            (setSortDirection (sortDirection active)
              (setSortKey (sortKey active)
                (setFilters (filters active) st))))))
  | ActiveNone => inr (restore_session allOrders st)
  | PresetsUnreadable => inr (Throws "SyntaxError")
  | PresetsOtherShape => inr IllTyped
  end.
Proof.
  unfold load_saved, lookup_active.
  destruct (truthy (getItem (st_localStorage st) "order-presets") &&
            truthy (getItem (st_localStorage st) "active-order-preset")); [|reflexivity].
  destruct (getItem (st_localStorage st) "order-presets") as [saved|]; [|reflexivity].
  destruct (getItem (st_localStorage st) "active-order-preset") as [an|]; [|reflexivity].
  destruct (JSON_parse saved) as [v|]; [|reflexivity].
  destruct (presets_of_json v) as [all|]; [|reflexivity].
  destruct (find (fun p => String.eqb (name p) an) all); reflexivity.
Qed.

(** No active preset is found where the store lacks the active name or
    the preset list. *)
Lemma lookup_active_absent (st : AppState) :
  getItem (st_localStorage st) "active-order-preset" = None \/
  getItem (st_localStorage st) "order-presets" = None ->
  lookup_active st = ActiveNone.
Proof.
  intros H. unfold lookup_active.
  assert (truthy (getItem (st_localStorage st) "order-presets") &&
          truthy (getItem (st_localStorage st) "active-order-preset") = false) as ->.
  { destruct H as [-> | ->]; [apply andb_false_r | reflexivity]. }
  reflexivity.
Qed.

(** The look-up in a preset list written by the preset manager: a stale
    active name, borne by no preset of the list, finds nothing. *)
Lemma lookup_active_written (st : AppState) (ps : list Preset) (n : string) :
  getItem (st_localStorage st) "order-presets" = Some (stringify (json_of_presets ps)) ->
  getItem (st_localStorage st) "active-order-preset" = Some n ->
  lookup_active st =
  match find (fun q => String.eqb (name q) n) ps with
  | Some p => if String.eqb n EmptyString then ActiveNone else ActiveFound p
  | None => ActiveNone
  end.
Proof.
  intros Hps Han. unfold lookup_active. rewrite Hps, Han. unfold truthy.
  rewrite stringify_presets_not_empty. cbn [negb andb].
  destruct (String.eqb n EmptyString); cbn [negb].
  - now destruct (find (fun q => String.eqb (name q) n) ps).
  - pose proof (presets_round_trip ps) as R.
    destruct (JSON_parse (stringify (json_of_presets ps))) as [v|]; [|discriminate].
    now rewrite R.
Qed.

(** The first effect where no active preset is found. *)
Lemma HomePage_mount_not_found (allOrders : list Order) (st : AppState) :
  lookup_active st = ActiveNone \/ lookup_active st = PresetsUnreadable ->
  HomePage_mount allOrders st =
  match lookup_active st with
  | PresetsUnreadable =>
      Normal (setLoading false (console_warn "Failed to load saved filters or presets" st))
  | _ =>
      match restore_session allOrders st with
      | Normal st' => Normal (setLoading false st')
      | Throws _ =>
          Normal (setLoading false (console_warn "Failed to load saved filters or presets" st))
      | IllTyped => IllTyped
      end
  end.
Proof.
  intros H. unfold HomePage_mount. rewrite load_saved_lookup.
  destruct H as [-> | ->]; reflexivity.
Qed.

(** X22: on an empty order collection the session is never restored:
    unless an active preset is found, the [try] block of the start-up
    throws (where it parses a stored preset list that is not JSON, else
    where it reads [allOrders[0]]), the error is caught and reported, and
    the page keeps its initial filters and sort although the store may
    hold valid ones.  No active preset is found when the store lacks the
    preset list or the active name, holds an empty one, holds a preset
    list that is not JSON, or names a preset that the stored list does
    not hold. *)
Theorem empty_collection_restores_nothing (st : AppState) :
  lookup_active st = ActiveNone \/ lookup_active st = PresetsUnreadable ->
  HomePage_mount [] st =
  Normal (setLoading false (console_warn "Failed to load saved filters or presets" st)).
Proof.
  intros H. rewrite (HomePage_mount_not_found [] st H).
  destruct H as [-> | ->]; reflexivity.
Qed.

(** An instance of the theorem above: the store holds the session, a
    preset list and the name of a preset that is no longer in the list. *)
Lemma empty_collection_witness :
  let p := mkPreset "Urgent" (mkFilterState None ["QC"] [] [] [] [] [] ["<5"]) "status" desc in
  let st :=
    setSortKey "customer"
      (setFilters (mkFilterState None ["QC"] [] [] [] [] [] []) (initial_state empty_storage)) in
  let ls :=
    setItem
      (setItem (st_localStorage (persist st)) "order-presets" (stringify (json_of_presets [p])))
      "active-order-preset" "Deleted" in
  lookup_active (initial_state ls) = ActiveNone /\
  exists st',
    HomePage_mount [] (initial_state ls) = Normal st' /\
    st_filters st' = defaultFilterState /\ st_sortKey st' = "oid" /\
    st_warnings st' = [ "Failed to load saved filters or presets" ].
Proof.
  intros p st ls. split; [reflexivity|]. eexists. split.
  - apply (empty_collection_restores_nothing (initial_state ls)). left. reflexivity.
  - repeat split; reflexivity.
Defined.

(** X23: a session value of the filters that is not JSON costs the sort
    as well, whenever no active preset is found: the error is caught
    before the stored sort key and direction are looked at, so the page
    keeps its initial filters and sort and reports one warning. *)
Theorem corrupted_filters_lose_the_sort
    (allOrders : list Order) (st : AppState) (raw : string) :
  lookup_active st = ActiveNone \/ lookup_active st = PresetsUnreadable ->
  allOrders <> [] ->
  getItem (st_localStorage st) "order-filters" = Some raw ->
  raw <> EmptyString ->
  JSON_parse raw = None ->
  HomePage_mount allOrders st =
  Normal (setLoading false (console_warn "Failed to load saved filters or presets" st)).
Proof.
  intros Ha Hne Hraw Hr Hparse. rewrite (HomePage_mount_not_found allOrders st Ha).
  destruct Ha as [-> | ->]; [|reflexivity].
  unfold restore_session. destruct allOrders as [|o rest]; [contradiction|].
  rewrite Hraw. apply String.eqb_neq in Hr. now rewrite Hr, Hparse.
Qed.

(** An instance of the theorem above: the stored active name is borne by
    no preset of the stored list. *)
Lemma corrupted_filters_witness :
  let o := mkOrder 1 "QC" "QC" "Order" "" "Acme" 3 "M1" "Dana" in
  let p := mkPreset "Urgent" (mkFilterState None ["QC"] [] [] [] [] [] ["<5"]) "status" desc in
  let ls :=
    setItem
      (setItem
         (setItem (setItem (setItem empty_storage "order-filters" "{status:")
                     "order-sortKey" "customer") "order-sortDirection" "desc")
         "order-presets" (stringify (json_of_presets [p])))
      "active-order-preset" "Deleted" in
  lookup_active (initial_state ls) = ActiveNone /\
  exists st',
    HomePage_mount [o] (initial_state ls) = Normal st' /\
    st_sortKey st' = "oid" /\ st_sortDirection st' = asc /\
    st_warnings st' = [ "Failed to load saved filters or presets" ].
Proof.
  intros o p ls. split; [reflexivity|]. eexists. split.
  - apply (corrupted_filters_lose_the_sort [o] (initial_state ls) "{status:").
    + left. reflexivity.
    + discriminate.
    + reflexivity.
    + discriminate.
    + reflexivity.
  - repeat split; reflexivity.
Defined.

(** X24: the start-up never writes: whenever it ends normally, loading
    is over and the store, the preset list, the page number and the input
    of the preset manager are as they were. *)
Theorem HomePage_mount_only_reads (allOrders : list Order) (st st' : AppState) :
  HomePage_mount allOrders st = Normal st' ->
  st_loading st' = false /\
  st_localStorage st' = st_localStorage st /\
  st_presets st' = st_presets st /\
  st_page st' = st_page st /\
  st_name st' = st_name st /\ st_open st' = st_open st.
Proof.
  unfold HomePage_mount, load_saved, restore_session.
  repeat match goal with
         | |- context [match ?x with _ => _ end] =>
             lazymatch x with
             | context [match _ with _ => _ end] => fail
             | _ => destruct x
             end
         end;
    intros H; try discriminate; injection H as <-; repeat split; reflexivity.
Qed.

(** An instance of the theorem above. *)
Lemma HomePage_mount_only_reads_witness :
  let st := initial_state (setItem empty_storage "order-sortKey" "customer") in
  let o := mkOrder 1 "QC" "QC" "Order" "" "Acme" 3 "M1" "Dana" in
  st_loading (setLoading false (setSortKey "customer" st)) = false /\
  st_localStorage (setLoading false (setSortKey "customer" st)) = st_localStorage st /\
  st_presets (setLoading false (setSortKey "customer" st)) = st_presets st /\
  st_page (setLoading false (setSortKey "customer" st)) = st_page st /\
  st_name (setLoading false (setSortKey "customer" st)) = st_name st /\
  st_open (setLoading false (setSortKey "customer" st)) = st_open st.
Proof.
  cbv zeta.
  apply (HomePage_mount_only_reads
           [ mkOrder 1 "QC" "QC" "Order" "" "Acme" 3 "M1" "Dana" ]
           (initial_state (setItem empty_storage "order-sortKey" "customer"))).
  reflexivity.
Defined.

(** X25: changes made after loading a preset do not survive a reload:
    once a preset is loaded it stays the active one while options are
    toggled and columns sorted, so the page started on the store written
    afterwards shows the filters and the sort of the preset, not the
    changed ones. *)
Theorem edits_after_load_are_lost_on_reload
    (allOrders : list Order) (st : AppState) (p : Preset)
    (key : FilterKey) (opt colKey : string) :
  presets_in_sync st ->
  find (fun q => String.eqb (name q) (name p)) (st_presets st) = Some p ->
  name p <> EmptyString ->
  let edited := handleSortClick colKey (handleToggleOption key opt (loadPreset p st)) in
  exists st',
    HomePage_mount allOrders (initial_state (st_localStorage (persist edited))) = Normal st' /\
    st_filters st' = filters p /\ st_sortKey st' = sortKey p /\
    st_sortDirection st' = sortDirection p /\
    st_activePresetName st' = Some (name p).
Proof.
  intros Hs Hfind Hn. cbv zeta.
  set (edited := handleSortClick colKey (handleToggleOption key opt (loadPreset p st))).
  assert (st_localStorage edited =
          setItem (st_localStorage st) "active-order-preset" (name p)) as Hls.
  { unfold edited, handleSortClick.
    destruct (String.eqb _ _); reflexivity. }
  eexists. split.
  - apply (HomePage_mount_active_preset allOrders _ (st_presets st) (name p) p).
    + unfold persist. cbn [st_localStorage initial_state setStorage]. rewrite Hls.
      rewrite !getItem_setItem_other by discriminate. exact Hs.
    + unfold persist. cbn [st_localStorage initial_state setStorage]. rewrite Hls.
      rewrite !getItem_setItem_other by discriminate. apply getItem_setItem_same.
    + exact Hn.
    + exact Hfind.
  - repeat split; reflexivity.
Qed.

(** An instance of the theorem above. *)
Lemma edits_after_load_witness :
  let p := mkPreset "Urgent" (mkFilterState None ["QC"] [] [] [] [] [] []) "status" desc in
  let st :=
    setStorage (setItem empty_storage "order-presets" (stringify (json_of_presets [p])))
      (setPresets [p] (initial_state empty_storage)) in
  let edited := handleSortClick "customer" (handleToggleOption K_status "QC" (loadPreset p st)) in
  st_filters edited = mkFilterState None [] [] [] [] [] [] [] /\
  exists st',
    HomePage_mount [] (initial_state (st_localStorage (persist edited))) = Normal st' /\
    st_filters st' = filters p /\ st_sortKey st' = sortKey p /\
    st_sortDirection st' = sortDirection p /\
    st_activePresetName st' = Some (name p).
Proof.
  cbv zeta. split; [reflexivity|].
  apply (edits_after_load_are_lost_on_reload []
           (setStorage
              (setItem empty_storage "order-presets"
                 (stringify
                    (json_of_presets
                       [ mkPreset "Urgent" (mkFilterState None ["QC"] [] [] [] [] [] [])
                           "status" desc ])))
              (setPresets
                 [ mkPreset "Urgent" (mkFilterState None ["QC"] [] [] [] [] [] []) "status" desc ]
                 (initial_state empty_storage)))
           (mkPreset "Urgent" (mkFilterState None ["QC"] [] [] [] [] [] []) "status" desc)
           K_status "QC" "customer").
  - reflexivity.
  - reflexivity.
  - discriminate.
Defined.

(** ** Selections as sets *)

(** X26: the rows depend on which options are selected in each field,
    not on the order of the options nor on repetitions: two filter states
    with the same selected options in every field let the same orders
    pass. *)
Theorem matches_depends_on_members (o : Order) (f f' : FilterState) :
  (forall key s, In s (get_field f key) <-> In s (get_field f' key)) ->
  matches o f = matches o f'.
Proof.
  intros H.
  assert (Hk : forall key,
            entry_matches o (key, get_field f key) = entry_matches o (key, get_field f' key)).
  { intros key. apply entry_matches_same_members. apply H. }
  assert (Hm : forall g, matches o g =
            entry_matches o (K_OID, get_field g K_OID) &&
            (entry_matches o (K_status, get_field g K_status) &&
             (entry_matches o (K_type, get_field g K_type) &&
              (entry_matches o (K_lock, get_field g K_lock) &&
               (entry_matches o (K_customer, get_field g K_customer) &&
                (entry_matches o (K_model, get_field g K_model) &&
                 (entry_matches o (K_designer, get_field g K_designer) &&
                  (entry_matches o (K_days, get_field g K_days) && true)))))))).
  { intros [[oid|] st ty lo cu mo de da]; reflexivity. }
  rewrite (Hm f), (Hm f'), !Hk. reflexivity.
Qed.

(** An instance of the theorem above. *)
Lemma matches_depends_on_members_witness :
  let o := mkOrder 1 "QC" "Drying" "Order" "" "Acme" 3 "M1" "Dana" in
  matches o (mkFilterState None ["QC"; "Delivered"] [] [] [] [] [] []) =
  matches o (mkFilterState (Some []) ["Delivered"; "QC"; "QC"] [] [] [] [] [] []).
Proof.
  cbv zeta. apply matches_depends_on_members.
  intros key s. destruct key; cbn; tauto.
Defined.
